(** * platform-cli: plugin registry and template processor

    A shallow embedding of [src/plugins/registry.js] and
    [src/templates/processor.js], with the properties of the specification
    stated and proved over it.

    Conventions of the embedding.
    - A JavaScript call either completes normally or throws: [completion].
    - The instance field [this.plugins] (a [Map]) is a [gmap string Plugin];
      methods that mutate it take the registry and return the registry after
      the call next to their completion.
    - A [Set] of names is a [gset string]; an array of names is a [list].
    - Recursive methods carry a [fuel] argument bounding the depth of the call
      stack; [None] means the bound was reached.  The entry points fix the
      fuel from the size of the registry, and the development proves that this
      is always enough and that more fuel never changes an answer. *)

From Stdlib Require Import String Ascii List.
From stdpp Require Import gmap strings list relations pretty.

Local Open Scope string_scope.
Local Open Scope list_scope.
#[local] Set Warnings "-clear-no-such-hyp".

(** ** Completions *)

Inductive completion (E A : Type) : Type :=
| Normal (a : A)
| Throw (e : E).
Arguments Normal {E A} a.
Arguments Throw {E A} e.

(** [for (const x of xs) body(x)] over a threaded state: the first throw (or
    exhaustion of fuel) leaves the loop. *)
Fixpoint forOf {E A S : Type} (body : A → S → option (completion E S))
    (xs : list A) (s : S) : option (completion E S) :=
  match xs with
  | [] => Some (Normal s)
  | x :: xs' =>
      match body x s with
      | Some (Normal s') => forOf body xs' s'
      | r => r
      end
  end.

(** ** src/plugins/registry.js *)

Module Registry.

(** The part of [PluginInterface] the registry reads. *)
Record Plugin : Type := {
  getName : string;
  getVersion : string;
  getDescription : string;
  getDependencies : list string
}.

Abbreviation PluginRegistry := (gmap string Plugin).

(** The four [throw new Error(...)] sites of the class. *)
Inductive RegistryError : Type :=
| AlreadyRegistered (name : string)
| PluginNotFound (name : string)
| CircularDependency (name : string)
| UnresolvedDependency (dep name : string).

Definition dq : string := String (ascii_of_nat 34) EmptyString.

Definition message (e : RegistryError) : string :=
  match e with
  | AlreadyRegistered name =>
      "Plugin with name " +:+ dq +:+ name +:+ dq +:+ " is already registered"
  | PluginNotFound name =>
      "Plugin " +:+ dq +:+ name +:+ dq +:+ " not found"
  | CircularDependency name =>
      "Circular dependency detected involving plugin " +:+ dq +:+ name +:+ dq
  | UnresolvedDependency dep name =>
      "Unresolved dependency " +:+ dq +:+ dep +:+ dq +:+ " for plugin " +:+ dq +:+ name +:+ dq
  end.

(** [constructor()] *)
Definition empty : PluginRegistry := ∅.

(** [getAllPlugins()] *)
Definition getAllPlugins (this : PluginRegistry) : PluginRegistry := this.

(** [hasPlugin(name)] *)
Definition hasPlugin (this : PluginRegistry) (name : string) : bool :=
  match this !! name with Some _ => true | None => false end.

(** [register(plugin)]: the completion and the registry after the call.  The
    call of [logger.debug] does not touch the registry and is left out. *)
Definition register (plugin : Plugin) (this : PluginRegistry)
    : completion RegistryError unit * PluginRegistry :=
  let name := getName plugin in
  if hasPlugin this name
  then (Throw (AlreadyRegistered name), this)
  else (Normal tt, <[name := plugin]> this).

(** [getPlugin(name)] *)
Definition getPlugin (this : PluginRegistry) (name : string)
    : completion RegistryError Plugin :=
  if negb (hasPlugin this name)
  then Throw (PluginNotFound name)
  else match this !! name with
       | Some plugin => Normal plugin
       | None => Throw (PluginNotFound name)
       end.

(** [resolveDependencies(name, visited)].  Every recursive call receives its
    own copy [new Set(visited)], so [visited] is the set of names on the path
    from the root of the traversal. *)
Fixpoint resolveDependencies (fuel : nat) (this : PluginRegistry)
    (name : string) (visited : gset string)
    : option (completion RegistryError unit) :=
  match fuel with
  | O => None
  | S fuel' =>
      if decide (name ∈ visited)
      then Some (Throw (CircularDependency name))
      else
        let visited := {[name]} ∪ visited in
        match getPlugin this name with
        | Throw e => Some (Throw e)
        | Normal plugin =>
            forOf (λ dep _,
                     if negb (hasPlugin this dep)
                     then Some (Throw (UnresolvedDependency dep name))
                     else resolveDependencies fuel' this dep visited)
                  (getDependencies plugin) tt
        end
  end.

(** The call [resolveDependencies(name)] with the default [visited = new Set()]. *)
Definition resolveDependencies0 (this : PluginRegistry) (name : string)
    : option (completion RegistryError unit) :=
  resolveDependencies (S (size this)) this name ∅.

(** The two locals captured by the closure [visit]. *)
Record OrderState : Type := {
  result : list string;
  visited : gset string
}.

(** [result.includes(name)] *)
Definition includes (xs : list string) (name : string) : bool :=
  bool_decide (name ∈ xs).

(** The closure [visit] of [getPluginsInDependencyOrder]. *)
Fixpoint visit (fuel : nat) (this : PluginRegistry) (name : string)
    (st : OrderState) : option (completion RegistryError OrderState) :=
  match fuel with
  | O => None
  | S fuel' =>
      if decide (name ∈ visited st)
      then Some (Normal st)
      else
        let st := {| result := result st; visited := {[name]} ∪ visited st |} in
        if hasPlugin this name
        then
          match getPlugin this name with
          | Throw e => Some (Throw e)
          | Normal plugin =>
              match forOf (visit fuel' this) (getDependencies plugin) st with
              | Some (Normal st) =>
                  if negb (includes (result st) name)
                  then Some (Normal {| result := result st ++ [name];
                                       visited := visited st |})
                  else Some (Normal st)
              | r => r
              end
          end
        else Some (Normal st)
  end.

(** [getPluginsInDependencyOrder(pluginNames)] *)
Definition getPluginsInDependencyOrder (this : PluginRegistry)
    (pluginNames : list string) : option (completion RegistryError (list string)) :=
  match forOf (visit (S (size this)) this) pluginNames
              {| result := []; visited := ∅ |} with
  | Some (Normal st) => Some (Normal (result st))
  | Some (Throw e) => Some (Throw e)
  | None => None
  end.

(** *** The dependency graph *)

(** [a] declares [b] as a dependency. *)
Definition depends (this : PluginRegistry) (a b : string) : Prop :=
  ∃ plugin, this !! a = Some plugin ∧ b ∈ getDependencies plugin.

(** No plugin is among its own transitive dependencies. *)
Definition acyclic (this : PluginRegistry) : Prop :=
  ∀ name, ¬ tc (depends this) name name.

(** [a] occurs strictly before [b] in [xs]. *)
Definition before (a b : string) (xs : list string) : Prop :=
  ∃ l1 l2 l3, xs = l1 ++ a :: l2 ++ b :: l3.

(** *** Vocabulary of the properties *)

(** The number of registered names outside [seen]. *)
Definition unseen (this : PluginRegistry) (seen : gset string) : nat :=
  size (dom this ∖ seen).

(** The state [getPluginsInDependencyOrder] starts from. *)
Definition start : OrderState := {| result := []; visited := ∅ |}.

(** What a visit does to the result: it appends registered names, and
    appends no name twice. *)
Definition extends (this : PluginRegistry) (st st' : OrderState) : Prop :=
  (∃ extra, result st' = result st ++ extra ∧ ∀ x, x ∈ extra → is_Some (this !! x))
  ∧ (NoDup (result st) → NoDup (result st')).

(** The state [st] with [name] added to its visited set. *)
Definition mark (name : string) (st : OrderState) : OrderState :=
  {| result := result st; visited := {[name]} ∪ visited st |}.

(** Every registered dependency of a name of the result stands before it. *)
Definition ordered (this : PluginRegistry) (st : OrderState) : Prop :=
  ∀ n d, n ∈ result st → depends this n d → is_Some (this !! d) →
         before d n (result st).

(** Every visited name is in the result, or is not registered, or is still
    being visited: it is on the call stack [stack]. *)
Definition settled (this : PluginRegistry) (stack : list string) (st : OrderState) : Prop :=
  ∀ v, v ∈ visited st → v ∈ result st ∨ this !! v = None ∨ v ∈ stack.

(** The errors of [resolveDependencies], and what they name.  [outer] is the
    set the traversal started from; the other names of its [visited] are on
    the path that leads to [name]. *)
Definition explains (this : PluginRegistry) (outer : gset string) (name : string)
    (e : RegistryError) : Prop :=
  match e with
  | CircularDependency x =>
      rtc (depends this) name x ∧ (x ∈ outer ∨ tc (depends this) x x)
  | UnresolvedDependency dep plugin =>
      rtc (depends this) name plugin ∧ depends this plugin dep ∧ this !! dep = None
  | PluginNotFound x => x = name ∧ this !! name = None
  | AlreadyRegistered _ => False
  end.

(** On any graph: the visited names are settled, and the dependencies of the
    names of the result have all been visited. *)
Definition closed (this : PluginRegistry) (stack : list string) (st : OrderState) : Prop :=
  settled this stack st
  ∧ ∀ n d, n ∈ result st → depends this n d → d ∈ visited st.

(** The registries the program can hold: built from the empty one by calls of
    [register], whether they succeed or throw. *)
Inductive populated : PluginRegistry → Prop :=
| populated_empty : populated empty
| populated_register plugin this :
    populated this → populated (register plugin this).2.

(** No two entries of the map hold plugins of the same name. *)
Definition names_unique (this : PluginRegistry) : Prop :=
  ∀ k1 k2 p1 p2,
    this !! k1 = Some p1 → this !! k2 = Some p2 → getName p1 = getName p2 →
    k1 = k2 ∧ p1 = p2.

(** *** Sample registries *)

Definition mkPlugin (name : string) (deps : list string) : Plugin :=
  {| getName := name; getVersion := "1.0.0"; getDescription := name;
     getDependencies := deps |}.

Definition registerAll (ps : list Plugin) (this : PluginRegistry) : PluginRegistry :=
  foldl (λ reg p, (register p reg).2) this ps.

Definition chainAB : PluginRegistry :=
  registerAll [mkPlugin "A" ["B"]; mkPlugin "B" []] empty.

Definition cycleAB : PluginRegistry :=
  registerAll [mkPlugin "A" ["B"]; mkPlugin "B" ["A"]] empty.

(** [A] depends on [B], which depends on [A] again, and on [C], which is not
    registered. *)
Definition cycleThenMissing : PluginRegistry :=
  registerAll [mkPlugin "A" ["B"; "C"]; mkPlugin "B" ["A"]] empty.

(** A valid chain from [A], next to a cycle and to a missing dependency. *)
Definition mixedRegistry : PluginRegistry :=
  registerAll [mkPlugin "A" ["B"]; mkPlugin "B" []; mkPlugin "C" ["D"];
               mkPlugin "D" ["C"]; mkPlugin "E" ["X"]] empty.

(** [A] depends on [B], which depends on [X], which is not registered. *)
Definition chainMissing : PluginRegistry :=
  registerAll [mkPlugin "A" ["B"]; mkPlugin "B" ["X"]] empty.

End Registry.

(** ** src/templates/processor.js *)

Module Processor.

(** *** JavaScript strings

    File contents are UTF-8 text kept as their byte sequence: on valid UTF-8
    [content.toString('utf8')] followed by the UTF-8 encoding done by
    [fs.writeFile] is the identity, and every pattern the processor searches
    for is ASCII, so searching the bytes is searching the text. *)

(** [s.slice(n)] *)
Fixpoint slice (n : nat) (s : string) : string :=
  match n, s with
  | S n', String _ s' => slice n' s'
  | _, _ => s
  end.

(** [s.includes(sub)] *)
Fixpoint str_includes (s sub : string) : bool :=
  if String.prefix sub s then true
  else match s with
       | EmptyString => false
       | String _ s' => str_includes s' sub
       end.

(** ECMAScript GetSubstitution for a match without capture groups: in the
    replacement text [$$] is a dollar sign, [$&] the matched text, [$`] the
    text before the match and [$'] the text after it; any other character,
    a [$] followed by anything else included, stands for itself. *)
Fixpoint getSubstitution (matched pre post replacement : string) : string :=
  match replacement with
  | EmptyString => EmptyString
  | String c r =>
      if (c =? "$")%char then
        match r with
        | String d r' =>
            if (d =? "$")%char then String "$" (getSubstitution matched pre post r')
            else if (d =? "&")%char then matched +:+ getSubstitution matched pre post r'
            else if (d =? "`")%char then pre +:+ getSubstitution matched pre post r'
            else if (d =? "'")%char then post +:+ getSubstitution matched pre post r'
            else String c (getSubstitution matched pre post r)
        | EmptyString => String c EmptyString
        end
      else String c (getSubstitution matched pre post r)
  end.

(** [s.replace(pattern, replacement)] with a string pattern: the first
    occurrence only.  [pre] is the text already passed over. *)
Fixpoint replaceFirstFrom (pattern replacement pre s : string) : string :=
  if String.prefix pattern s
  then let post := slice (String.length pattern) s in
       getSubstitution pattern pre post replacement +:+ post
  else match s with
       | EmptyString => EmptyString
       | String c s' =>
           String c (replaceFirstFrom pattern replacement (pre +:+ String c EmptyString) s')
       end.

Definition replaceFirst (pattern replacement s : string) : string :=
  replaceFirstFrom pattern replacement EmptyString s.

(** [s.replace(/literal/g, replacement)] for a regular expression that matches
    exactly the non-empty text [literal]: every occurrence, left to right,
    without overlap.  [skip] counts the characters of the current match that
    are still to be passed over. *)
Fixpoint replaceAllFrom (literal replacement pre s : string) (skip : nat) : string :=
  match s with
  | EmptyString => EmptyString
  | String c s' =>
      let pre' := pre +:+ String c EmptyString in
      match skip with
      | S k => replaceAllFrom literal replacement pre' s' k
      | O =>
          if String.prefix literal s
          then getSubstitution literal pre (slice (String.length literal) s) replacement
               +:+ replaceAllFrom literal replacement pre' s' (String.length literal - 1)
          else String c (replaceAllFrom literal replacement pre' s' 0)
      end
  end.

Definition replaceAll (literal replacement s : string) : string :=
  replaceAllFrom literal replacement EmptyString s 0.

(** The first occurrence of [pattern] in [s]: the text before and after it. *)
Fixpoint splitAt (pattern s : string) : option (string * string) :=
  if String.prefix pattern s
  then Some (EmptyString, slice (String.length pattern) s)
  else match s with
       | EmptyString => None
       | String c s' =>
           match splitAt pattern s' with
           | Some (b, a) => Some (String c b, a)
           | None => None
           end
       end.

(** The first match of the pattern [/{{([\s\S]+?)}}/] the source hands to the
    evaluator: the text before it, the captured expression (at least one
    character, as short as possible) and the text after it.  When the first
    [{{] has no [}}] after one more character, no later [{{] has one. *)
Definition findSpan (text : string) : option (string * string * string) :=
  match splitAt "{{" text with
  | Some (b, String c r) =>
      match splitAt "}}" r with
      | Some (e, a) => Some (b, String c e, a)
      | None => None
      end
  | _ => None
  end.

(** [s.toLowerCase()] on strings of ASCII characters: the letters [A]-[Z]
    are mapped and every other byte is kept.  JavaScript also maps letters
    outside ASCII (the Kelvin sign U+212A becomes [k]), so a property whose
    truth depends on the lower-case form of a text is stated for ASCII texts
    ([Generate.isAscii]).  A text whose lower-case form here is one of the
    ASCII names [isTextFile] looks for is all ASCII, so [isTextFile file =
    true] here is [true] in the code for every [file]. *)
Definition lowerChar (c : ascii) : ascii :=
  let n := nat_of_ascii c in
  if (65 <=? n)%nat && (n <=? 90)%nat then ascii_of_nat (n + 32) else c.

Fixpoint toLowerCase (s : string) : string :=
  match s with
  | EmptyString => EmptyString
  | String c s' => String (lowerChar c) (toLowerCase s')
  end.

(** A value used as a condition: the empty string and [undefined] are falsy. *)
Definition truthy (s : string) : bool :=
  match s with EmptyString => false | _ => true end.

(** *** Node's [path] module (POSIX) *)

Definition isSlash (c : ascii) : bool := (c =? "/")%char.

Fixpoint dropWhile (p : ascii → bool) (l : list ascii) : list ascii :=
  match l with
  | c :: l' => if p c then dropWhile p l' else l
  | [] => []
  end.

Fixpoint takeWhile (p : ascii → bool) (l : list ascii) : list ascii :=
  match l with
  | c :: l' => if p c then c :: takeWhile p l' else []
  | [] => []
  end.

(** The last portion of the path, read backwards: trailing separators are
    ignored. *)
Definition lastPortionRev (p : string) : list ascii :=
  takeWhile (λ c, negb (isSlash c)) (dropWhile isSlash (rev (list_ascii_of_string p))).

(** [path.basename(p)] *)
Definition basename (p : string) : string :=
  string_of_list_ascii (rev (lastPortionRev p)).

(** [path.extname(p)]: from the last dot of the last portion to its end; empty
    when there is no dot, when the only dot starts the portion, and for the
    portion [..]. *)
Definition extname (p : string) : string :=
  let r := lastPortionRev p in
  let afterDot := takeWhile (λ c, negb (c =? ".")%char) r in
  match dropWhile (λ c, negb (c =? ".")%char) r with
  | [] => EmptyString
  | _ :: [] => EmptyString
  | _ :: _ =>
      if bool_decide (r = ["."; "."]%char) then EmptyString
      else string_of_list_ascii ("."%char :: rev afterDot)
  end.

(** *** The context and the collaborators *)

(** The context object built by the generate command. *)
Record Context : Type := {
  name : string;
  outputDir : string;
  packageName : option string;
  templateName : string;
  plugins : list string
}.

(** [context.packageName && ...] *)
Definition packageNameOf (context : Context) : option string :=
  match packageName context with
  | Some p => if truthy p then Some p else None
  | None => None
  end.

(** The template source handed to the processor. *)
Record TemplateSource : Type := {
  getFiles : completion string (list string);
  getFileContent : string → completion string string
}.

(** lodash's [template(text, { interpolate: /{{([\s\S]+?)}}/g })(context)]:
    the rendered text, or the message of the error thrown while compiling or
    running the template.  lodash is not part of the repository; the processor
    is parameterised by it. *)
Definition Template : Type := string → Context → completion string string.

Inductive Level : Type := Debug | Info | Warn | Error.

(** What a run leaves behind: the file-system calls and the logger calls, in
    the order they were made.  [path.join(base, rel)] and [path.dirname] are
    kept symbolic.  In this module every file-system call is fulfilled; the
    module [Fallible] below has the same functions over a file system whose
    calls may be rejected, and agrees with this one when none is. *)
Inductive Path : Type :=
| Plain (p : string)
| Join (base rel : string)
| Dirname (p : Path).

Inductive FsOp : Type :=
| EnsureDir (dir : Path)
| WriteFile (file : Path) (data : string).

Record World : Type := {
  fsOps : list FsOp;
  logs : list (Level * string)
}.

Definition logger (l : Level) (msg : string) (w : World) : World :=
  {| fsOps := fsOps w; logs := logs w ++ [(l, msg)] |}.

Definition fs (op : FsOp) (w : World) : World :=
  {| fsOps := fsOps w ++ [op]; logs := logs w |}.

(** *** isTextFile *)

Definition textExtensions : list string :=
  [".txt"; ".md"; ".html"; ".css"; ".scss"; ".less"; ".js"; ".jsx"; ".ts"; ".tsx";
   ".json"; ".xml"; ".yaml"; ".yml"; ".properties"; ".conf"; ".config";
   ".java"; ".kt"; ".groovy"; ".gradle"; ".py"; ".rb"; ".php"; ".c"; ".cpp"; ".h";
   ".cs"; ".go"; ".rs"; ".swift"; ".sh"; ".bat"; ".ps1"].

Definition textFileNames : list string :=
  ["dockerfile"; "jenkinsfile"; "makefile"; "readme"; "license"; ".gitignore";
   ".dockerignore"; ".npmignore"; ".npmrc"; ".env"; ".env.example"].

Definition isTextFile (filePath : string) : bool :=
  let ext := toLowerCase (extname filePath) in
  if bool_decide (ext ∈ textExtensions) then true
  else
    let basename := toLowerCase (basename filePath) in
    bool_decide (basename ∈ textFileNames).

(** *** processFile *)

(** Lines 52-59 and 79-86: expression interpolation of [text] under the guard
    [text.includes('{{') && text.includes('}}')]; a throw is caught, logged as
    a warning, and leaves [text] as it was.  [what] is the text the warning
    puts after its fixed opening. *)
Definition interpolate (template : Template) (what text : string)
    (context : Context) (w : World) : string * World :=
  if str_includes text "{{" && str_includes text "}}" then
    match template text context with
    | Normal rendered => (rendered, w)
    | Throw msg =>
        (text, logger Warn ("Failed to process template variables in "
                            +:+ what +:+ ": " +:+ msg) w)
    end
  else (text, w).

(** Lines 63-68: the package directory in a path. *)
Definition replacePackageDir (context : Context) (outputPath : string) : string :=
  match packageNameOf context with
  | Some p =>
      if str_includes outputPath "__packageDir__"
      then replaceFirst "__packageDir__" (replaceAll "." "/" p) outputPath
      else outputPath
  | None => outputPath
  end.

(** Lines 91-98: the package name and project name tokens in a content. *)
Definition replaceTokens (context : Context) (textContent : string) : string :=
  let textContent :=
    match packageNameOf context with
    | Some p => replaceAll "${packageName}" p textContent
    | None => textContent
    end in
  if truthy (name context)
  then replaceAll "${projectName}" (name context) textContent
  else textContent.

Definition processFile (template : Template) (file : string) (context : Context)
    (templateSource : TemplateSource) (w : World) : completion string unit * World :=
  match getFileContent templateSource file with
  | Throw msg =>
      (Throw msg, logger Warn ("Failed to process file " +:+ file +:+ ": " +:+ msg) w)
  | Normal content =>
      let outputPath := file in
      let '(outputPath, w) :=
        interpolate template ("path " +:+ outputPath) outputPath context w in
      let outputPath := replacePackageDir context outputPath in
      let outputFilePath := Join (outputDir context) outputPath in
      let w := fs (EnsureDir (Dirname outputFilePath)) w in
      let w :=
        if isTextFile file then
          let textContent := content in
          let '(textContent, w) := interpolate template file textContent context w in
          let textContent := replaceTokens context textContent in
          fs (WriteFile outputFilePath textContent) w
        else fs (WriteFile outputFilePath content) w in
      (Normal tt,
       logger Debug ("Processed file: " +:+ file +:+ " -> " +:+ outputPath) w)
  end.

(** The loop of [processTemplate]. *)
Fixpoint processFiles (template : Template) (files : list string) (context : Context)
    (templateSource : TemplateSource) (w : World) : completion string unit * World :=
  match files with
  | [] => (Normal tt, w)
  | file :: files' =>
      match processFile template file context templateSource w with
      | (Normal _, w') => processFiles template files' context templateSource w'
      | (Throw msg, w') => (Throw msg, w')
      end
  end.

Definition processTemplate (template : Template) (context : Context)
    (templateSource : TemplateSource) (w : World) : completion string bool * World :=
  let w := logger Info "Processing template files..." w in
  let failed msg w := (Throw msg, logger Error ("Template processing failed: " +:+ msg) w) in
  let w := fs (EnsureDir (Plain (outputDir context))) w in
  match getFiles templateSource with
  | Throw msg => failed msg w
  | Normal files =>
      let w := logger Debug ("Found " +:+ pretty (length files) +:+ " template files") w in
      match processFiles template files context templateSource w with
      | (Throw msg, w) => failed msg w
      | (Normal _, w) => (Normal true, logger Info "Template processing complete" w)
      end
  end.

(** The destination and the data of the last [fs.writeFile] of a run. *)
Definition written (w : World) : option (Path * string) :=
  match rev (fsOps w) with
  | WriteFile p d :: _ => Some (p, d)
  | _ => None
  end.

(** Its path relative to the output directory, and its data. *)
Definition outputPathOf (w : World) : option string :=
  match written w with
  | Some (Join _ rel, _) => Some rel
  | _ => None
  end.

Definition writtenData (w : World) : option string :=
  match written w with
  | Some (_, data) => Some data
  | None => None
  end.

Definition world0 : World := {| fsOps := []; logs := [] |}.

(** *** A field-lookup evaluator

    The evaluator below is used to run the processor on concrete inputs. *)

Definition isSpace (c : ascii) : bool := (c =? " ")%char.

Definition trim (s : string) : string :=
  string_of_list_ascii
    (rev (dropWhile isSpace (rev (dropWhile isSpace (list_ascii_of_string s))))).

(** The value of a field of the context, when the context has it. *)
Definition field (context : Context) (expr : string) : option string :=
  if bool_decide (expr = "name") then Some (name context)
  else if bool_decide (expr = "outputDir") then Some (outputDir context)
  else if bool_decide (expr = "packageName") then packageName context
  else if bool_decide (expr = "templateName") then Some (templateName context)
  else if bool_decide (expr = "plugins") then Some (String.concat "," (plugins context))
  else None.

(** Modelled from the spec: lodash's [template] is not part of the
    repository.  Every span [{{ expr }}] is replaced by the value of the field
    of the context that [expr] names; a span naming no field of the context
    makes the whole rendering throw. *)
Fixpoint fieldTemplateFrom (fuel : nat) (text : string) (context : Context)
    : completion string string :=
  match findSpan text with
  | None => Normal text
  | Some (b, e, a) =>
      match fuel with
      | O => Normal text
      | S fuel' =>
          match field context (trim e) with
          | None => Throw (trim e +:+ " is not defined")
          | Some v =>
              match fieldTemplateFrom fuel' a context with
              | Normal rendered => Normal (b +:+ v +:+ rendered)
              | Throw msg => Throw msg
              end
          end
      end
  end.

Definition fieldTemplate : Template :=
  λ text context, fieldTemplateFrom (String.length text) text context.




(** *** Vocabulary of the properties *)

(** Form 1 on a text: what [interpolate] returns, apart from the log. *)
Definition interpolated (template : Template) (text : string) (context : Context) : string :=
  (interpolate template EmptyString text context world0).1.

(** The warning logged when the evaluator throws on the content of [file]. *)
Definition interpolationWarning (file msg : string) : Level * string :=
  (Warn, "Failed to process template variables in " +:+ file +:+ ": " +:+ msg).

(** Where [processFile] writes a file, what it writes, and its two
    file-system calls. *)
Definition destination (template : Template) (context : Context) (file : string) : Path :=
  Join (outputDir context) (replacePackageDir context (interpolated template file context)).

Definition dataOf (template : Template) (context : Context) (file content : string) : string :=
  if isTextFile file
  then replaceTokens context (interpolated template content context)
  else content.

Definition fileOps (template : Template) (context : Context) (file content : string)
    : list FsOp :=
  [EnsureDir (Dirname (destination template context file));
   WriteFile (destination template context file) (dataOf template context file content)].

(** [s] with [f] applied to each of its characters. *)
Fixpoint mapChars (f : ascii → ascii) (s : string) : string :=
  match s with
  | EmptyString => EmptyString
  | String c s' => String (f c) (mapChars f s')
  end.

Definition dotToSlash (c : ascii) : ascii := if (c =? ".")%char then "/"%char else c.

(** *** Sample context and template source *)
Definition ordersContext : Context :=
  {| name := "orders-api"; outputDir := "/tmp/orders-api";
     packageName := Some "com.acme.orders"; templateName := "java-spring";
     plugins := [] |}.

Definition sourceOf (files : list (string * string)) : TemplateSource :=
  {| getFiles := Normal (files.*1);
     getFileContent := λ file,
       match list_find (λ kv, kv.1 = file) files with
       | Some (_, (_, content)) => Normal content
       | None => Throw ("File not found: " +:+ file)
       end |}.

End Processor.

(** *** The processor over a file system whose calls may be rejected

    [processFile] and [processTemplate] once more, line by line, with
    [await fs.ensureDir(..)] and [await fs.writeFile(..)] able to throw. *)

Module Fallible.
Import Processor.

(** The outcome of a file-system call, given the calls fulfilled before it:
    [None] when it is fulfilled, the message of the error when it is
    rejected. *)
Definition Disk : Type := list FsOp → FsOp → option string.

(** [await fs.op(..)]: a fulfilled call is recorded, a rejected one throws. *)
Definition fsCall (disk : Disk) (op : FsOp) (w : World) : completion string unit * World :=
  match disk (fsOps w) op with
  | None => (Normal tt, fs op w)
  | Some msg => (Throw msg, w)
  end.

Definition processFile (disk : Disk) (template : Template) (file : string)
    (context : Context) (templateSource : TemplateSource) (w : World)
    : completion string unit * World :=
  let failed msg w :=
    (Throw msg, logger Warn ("Failed to process file " +:+ file +:+ ": " +:+ msg) w) in
  match getFileContent templateSource file with
  | Throw msg => failed msg w
  | Normal content =>
      let outputPath := file in
      let '(outputPath, w) :=
        interpolate template ("path " +:+ outputPath) outputPath context w in
      let outputPath := replacePackageDir context outputPath in
      let outputFilePath := Join (outputDir context) outputPath in
      match fsCall disk (EnsureDir (Dirname outputFilePath)) w with
      | (Throw msg, w) => failed msg w
      | (Normal _, w) =>
          let '(data, w) :=
            if isTextFile file then
              let textContent := content in
              let '(textContent, w) := interpolate template file textContent context w in
              (replaceTokens context textContent, w)
            else (content, w) in
          match fsCall disk (WriteFile outputFilePath data) w with
          | (Throw msg, w) => failed msg w
          | (Normal _, w) =>
              (Normal tt,
               logger Debug ("Processed file: " +:+ file +:+ " -> " +:+ outputPath) w)
          end
      end
  end.

Fixpoint processFiles (disk : Disk) (template : Template) (files : list string)
    (context : Context) (templateSource : TemplateSource) (w : World)
    : completion string unit * World :=
  match files with
  | [] => (Normal tt, w)
  | file :: files' =>
      match processFile disk template file context templateSource w with
      | (Normal _, w') => processFiles disk template files' context templateSource w'
      | (Throw msg, w') => (Throw msg, w')
      end
  end.

Definition processTemplate (disk : Disk) (template : Template) (context : Context)
    (templateSource : TemplateSource) (w : World) : completion string bool * World :=
  let w := logger Info "Processing template files..." w in
  let failed msg w := (Throw msg, logger Error ("Template processing failed: " +:+ msg) w) in
  match fsCall disk (EnsureDir (Plain (outputDir context))) w with
  | (Throw msg, w) => failed msg w
  | (Normal _, w) =>
      match getFiles templateSource with
      | Throw msg => failed msg w
      | Normal files =>
          let w :=
            logger Debug ("Found " +:+ pretty (length files) +:+ " template files") w in
          match processFiles disk template files context templateSource w with
          | (Throw msg, w) => failed msg w
          | (Normal _, w) => (Normal true, logger Info "Template processing complete" w)
          end
      end
  end.

(** The calls [ops], made in this order after the calls [history], are all
    fulfilled. *)
Fixpoint fulfilled (disk : Disk) (history ops : list FsOp) : Prop :=
  match ops with
  | [] => True
  | op :: ops' => disk history op = None ∧ fulfilled disk (history ++ [op]) ops'
  end.

(** The file system that fulfils every call, and one on which a path that
    was written as a file cannot be created as a directory. *)
Definition reliable : Disk := λ _ _, None.

Definition filesStay : Disk :=
  λ history op,
    match op with
    | EnsureDir (Dirname (Join base rel)) =>
        if existsb (λ done,
                      match done with
                      | WriteFile (Join b r) _ =>
                          String.eqb b base
                          && String.prefix (r +:+ "/") rel
                      | _ => false
                      end) history
        then Some "ENOTDIR: not a directory" else None
    | _ => None
    end.

End Fallible.

(** ** src/commands/generate.js *)

Module Generate.
Import Registry Processor.

(** [a || b] for a string [a] that may be [undefined]. *)
Definition orElse (a : option string) (b : string) : string :=
  match a with
  | Some s => if truthy s then s else b
  | None => b
  end.

(** [s] without its longest prefix, and without its longest suffix, of
    characters that satisfy [q]. *)
Fixpoint dropStart (q : ascii → bool) (s : string) : string :=
  match s with
  | String c s' => if q c then dropStart q s' else s
  | EmptyString => EmptyString
  end.

Fixpoint dropEnd (q : ascii → bool) (s : string) : string :=
  match s with
  | String c s' =>
      match dropEnd q s' with
      | EmptyString => if q c then EmptyString else String c EmptyString
      | t => String c t
      end
  | EmptyString => EmptyString
  end.

(** Every character of [s] satisfies [q]. *)
Fixpoint allChars (q : ascii → bool) (s : string) : bool :=
  match s with
  | String c s' => q c && allChars q s'
  | EmptyString => true
  end.

(** The strings of ASCII characters.  On them [toLowerCase] and [trim] are
    the functions of this file; outside them JavaScript also maps and trims
    characters that are not ASCII. *)
Definition isAscii (s : string) : bool := allChars (λ c, (nat_of_ascii c <? 128)%nat) s.

(** The ASCII characters among WhiteSpace and LineTerminator. *)
Definition isWhiteSpace (c : ascii) : bool :=
  let n := nat_of_ascii c in
  ((n =? 9) || (n =? 10) || (n =? 11) || (n =? 12) || (n =? 13) || (n =? 32))%nat.

(** [s.trim()] *)
Definition trimString (s : string) : string :=
  dropEnd isWhiteSpace (dropStart isWhiteSpace s).

(** [value.split(',')] *)
Fixpoint split (value : string) : list string :=
  match value with
  | EmptyString => [EmptyString]
  | String c value' =>
      if (c =? ",")%char then EmptyString :: split value'
      else match split value' with
           | item :: items => String c item :: items
           | [] => [String c EmptyString]
           end
  end.

(** [commaSeparatedList(value)] *)
Definition commaSeparatedList (value : string) : list string :=
  List.filter truthy (List.map trimString (split value)).

Definition isLowerAlnum (c : ascii) : bool :=
  let n := nat_of_ascii c in
  (((97 <=? n) && (n <=? 122)) || ((48 <=? n) && (n <=? 57)))%nat.

Definition isDot (c : ascii) : bool := (c =? ".")%char.

(** [.replace(/[^a-z0-9]/g, '.')], character by character. *)
Definition sanitizeChar (c : ascii) : ascii := if isLowerAlnum c then c else "."%char.

(** [.replace(/\.{2,}/g, '.')]: of a run of dots the last one stays. *)
Fixpoint collapseDots (s : string) : string :=
  match s with
  | EmptyString => EmptyString
  | String c s' =>
      if isDot c && match s' with String d _ => isDot d | EmptyString => false end
      then collapseDots s'
      else String c (collapseDots s')
  end.

(** [getDefaultPackage(name)] *)
Definition getDefaultPackage (name : string) : string :=
  let sanitized := mapChars sanitizeChar (toLowerCase name) in
  let normalized := collapseDots sanitized in
  let trimmed := dropEnd isDot (dropStart isDot normalized) in
  if str_includes trimmed "." then trimmed else "com.example." +:+ trimmed.

(** The options of the command that the action reads. *)
Record Options : Type := {
  optName : option string;
  optOutput : option string;
  optPackage : option string;
  optWithPlugins : option (list string);
  optOrg : option string;
  optRepo : option string;
  optBranch : option string
}.

(** The context the action prepares; [resolve] is [path.resolve]. *)
Definition prepareContext (resolve : string → string) (templateName : string)
    (options : Options) : Context :=
  let name := orElse (optName options) templateName in
  let outputDir := orElse (optOutput options) (resolve ("./" +:+ name)) in
  {| name := name;
     outputDir := outputDir;
     packageName := Some (orElse (optPackage options) (getDefaultPackage name));
     templateName := templateName;
     plugins := default [] (optWithPlugins options) |}.

(** The loop [for (const pluginName of orderedPlugins)]: the completion, and
    the names of the plugins whose [apply] was called, in order.  [apply]
    stands for the method of the plugin objects. *)
Fixpoint applyEach (apply : Plugin → Context → completion string unit)
    (this : PluginRegistry) (context : Context) (orderedPlugins : list string)
    : completion string unit * list string :=
  match orderedPlugins with
  | [] => (Normal tt, [])
  | pluginName :: rest =>
      match getPlugin this pluginName with
      | Throw e => (Throw (message e), [])
      | Normal plugin =>
          match apply plugin context with
          | Throw msg => (Throw msg, [pluginName])
          | Normal _ =>
              let '(r, applied) := applyEach apply this context rest in
              (r, pluginName :: applied)
          end
      end
  end.

(** The block [if (context.plugins.length > 0) { ... }] of the action, on
    the registry that discovery left. *)
Definition applyPlugins (apply : Plugin → Context → completion string unit)
    (this : PluginRegistry) (context : Context)
    : option (completion string unit * list string) :=
  match plugins context with
  | [] => Some (Normal tt, [])
  | _ =>
      match getPluginsInDependencyOrder this (plugins context) with
      | None => None
      | Some (Throw e) => Some (Throw (message e), [])
      | Some (Normal orderedPlugins) => Some (applyEach apply this context orderedPlugins)
      end
  end.

(** *** Vocabulary of the properties *)

Definition isPackageChar (c : ascii) : bool := isLowerAlnum c || isDot c.

Definition notComma (c : ascii) : bool := negb (c =? ",")%char.

Definition startsWithDot (s : string) : bool :=
  match s with
  | String c _ => isDot c
  | EmptyString => false
  end.

(** Two dots in a row somewhere in [s]. *)
Fixpoint hasDoubleDot (s : string) : bool :=
  match s with
  | String c s' => (isDot c && startsWithDot s') || hasDoubleDot s'
  | EmptyString => false
  end.

(** A plugin behaviour for examples: [apply] fails for the plugin [B]. *)
Definition failsForB (plugin : Plugin) (context : Context) : completion string unit :=
  if bool_decide (getName plugin = "B") then Throw "B failed" else Normal tt.

End Generate.

(** ** src/plugins/discovery.js *)

Module Discovery.
Import Registry Processor Generate.

(** [s.endsWith(suffix)] *)
Definition endsWith (s suffix : string) : bool :=
  (String.length suffix <=? String.length s)%nat
  && String.eqb (slice (String.length s - String.length suffix) s) suffix.

(** What discovery reads of its environment: the listing of the directory of
    built-in plugins and of the directory of local plugins ([None] when the
    directory does not exist), the names of the entries of
    [{...dependencies, ...devDependencies}] of package.json ([None] when
    there is no package.json), the configured prefix, and for each of the
    three kinds what [require] followed by [new] gives.  A loader also
    answers [Throw] for a class whose [getName] or [getVersion] throws:
    [register] then throws before it stores anything, inside the same
    [try]. *)
Record Environment : Type := {
  builtInFiles : option (list string);
  localFiles : option (list string);
  dependencies : option (list string);
  pluginPrefix : option string;
  requireBuiltIn : string → completion string Plugin;
  requireLocal : string → completion string Plugin;
  requireNpm : string → completion string Plugin
}.

(** The registry and the warnings logged. *)
Record State : Type := {
  registry : PluginRegistry;
  warnings : list string
}.

(** [try { require; new; register } catch (error) { logger.warn(...) }] *)
Definition tryLoad (kind : string) (load : string → completion string Plugin)
    (id : string) (st : State) : State :=
  let failed msg :=
    {| registry := registry st;
       warnings := warnings st
                   ++ ["Failed to load " +:+ kind +:+ " plugin " +:+ id +:+ ": " +:+ msg] |} in
  match load id with
  | Throw msg => failed msg
  | Normal plugin =>
      match register plugin (registry st) with
      | (Throw e, _) => failed (message e)
      | (Normal _, registry') => {| registry := registry'; warnings := warnings st |}
      end
  end.

Definition discoverBuiltInPlugins (env : Environment) (st : State) : State :=
  match builtInFiles env with
  | None => st
  | Some files =>
      foldl (λ st file,
               if endsWith file ".js" then tryLoad "built-in" (requireBuiltIn env) file st
               else st) st files
  end.

Definition discoverLocalPlugins (env : Environment) (st : State) : State :=
  match localFiles env with
  | None => st
  | Some files =>
      foldl (λ st file,
               if endsWith file ".js" then tryLoad "local" (requireLocal env) file st
               else st) st files
  end.

Definition discoverNpmPlugins (env : Environment) (st : State) : State :=
  match dependencies env with
  | None => st
  | Some names =>
      let pluginPrefix := orElse (pluginPrefix env) "platform-cli-plugin-" in
      foldl (λ st name,
               if String.prefix pluginPrefix name then tryLoad "NPM" (requireNpm env) name st
               else st) st names
  end.

(** [discoverPlugins()] *)
Definition discoverPlugins (env : Environment) (st : State) : State :=
  discoverNpmPlugins env (discoverLocalPlugins env (discoverBuiltInPlugins env st)).

(** The candidates of a discovery, in the order they are tried: the kind,
    the loader and the identifier of each. *)
Definition candidates (env : Environment)
    : list (string * (string → completion string Plugin) * string) :=
  ((λ file, ("built-in", requireBuiltIn env, file))
     <$> List.filter (λ file, endsWith file ".js") (default [] (builtInFiles env)))
  ++ ((λ file, ("local", requireLocal env, file))
        <$> List.filter (λ file, endsWith file ".js") (default [] (localFiles env)))
  ++ ((λ name, ("NPM", requireNpm env, name))
        <$> List.filter (String.prefix (orElse (pluginPrefix env) "platform-cli-plugin-"))
              (default [] (dependencies env))).

(** One step of a discovery, on a candidate. *)
Definition step (st : State) (c : string * (string → completion string Plugin) * string)
    : State :=
  tryLoad c.1.1 c.1.2 c.2 st.

End Discovery.

(** ** src/templates/sources/index.js and git.js *)

Module Sources.
Import Processor Generate.

(** An object whose properties are strings: a key is absent, or present with
    the value [undefined] ([None]), or present with a string. *)
Abbreviation JsObject := (gmap string (option string)).

(** [o[k]] *)
Definition prop (o : JsObject) (k : string) : option string :=
  match o !! k with
  | Some v => v
  | None => None
  end.

(** [{ ...a, ...b }] *)
Definition spread (a b : JsObject) : JsObject := b ∪ a.

Record GitTemplateSource : Type := {
  sourceTemplateName : string;
  config : JsObject
}.

(** [getRepoUrl()] *)
Definition getRepoUrl (this : GitTemplateSource) : string :=
  let built :=
    let org := orElse (prop (config this) "org") "rcdelacruz" in
    let repo := orElse (prop (config this) "repo")
                       ("platform-template-" +:+ sourceTemplateName this) in
    "https://github.com/" +:+ org +:+ "/" +:+ repo +:+ ".git" in
  orElse (prop (config this) "url") built.

(** [getBranch()] *)
Definition getBranch (this : GitTemplateSource) : string :=
  orElse (prop (config this) "branch") "main".

(** [getTemplateSource(templateName, options)]; [templates] is
    [config.templates]. *)
Definition getTemplateSource (templates : option (gmap string JsObject))
    (templateName : string) (options : JsObject) : completion string GitTemplateSource :=
  let templateConfigs := default ∅ templates in
  let templateConfig := default ∅ (templateConfigs !! templateName) in
  let finalConfig := spread templateConfig options in
  let sourceType := orElse (prop finalConfig "source") "git" in
  if bool_decide (sourceType = "git")
  then Normal {| sourceTemplateName := templateName; config := finalConfig |}
  else if bool_decide (sourceType = "local")
  then Throw "Local template source not yet implemented"
  else if bool_decide (sourceType = "npm")
  then Throw "NPM template source not yet implemented"
  else Throw ("Unknown template source type: " +:+ sourceType).

(** The options the generate command hands over:
    [{ org: options.org, repo: options.repo, branch: options.branch }]. *)
Definition sourceOptions (options : Options) : JsObject :=
  <["org" := optOrg options]> (<["repo" := optRepo options]>
    (<["branch" := optBranch options]> ∅)).

(** [listTemplates()]: [keys] is [Object.keys(config.templates || {})] and
    [local] the listing of the directory of local templates ([None] when it
    does not exist). *)
Definition listTemplates (keys : list string) (local : option (list string))
    : list string :=
  match local with
  | None => keys
  | Some localTemplates =>
      foldl (λ templates template,
               if Registry.includes templates template then templates
               else templates ++ [template]) keys localTemplates
  end.

End Sources.

(** ** src/plugins/built-in/java-spring-template.js *)

Module JavaSpring.
Import Processor.

(** [s.lastIndexOf(c)] for a one-character [c]: the index of its last
    occurrence, or -1. *)
Fixpoint lastIndexOfFrom (c : ascii) (i found : Z) (s : string) : Z :=
  match s with
  | EmptyString => found
  | String a s' => lastIndexOfFrom c (i + 1) (if Ascii.eqb a c then i else found) s'
  end.

Definition lastIndexOf (s : string) (c : ascii) : Z := lastIndexOfFrom c 0 (-1) s.

(** [s.substring(indexStart, indexEnd)]: both indices are clamped to
    [0 .. s.length] and swapped when out of order. *)
Definition substring (s : string) (indexStart indexEnd : Z) : string :=
  let len := Z.of_nat (String.length s) in
  let finalStart := Z.min (Z.max indexStart 0) len in
  let finalEnd := Z.min (Z.max indexEnd 0) len in
  let from := Z.min finalStart finalEnd in
  let to := Z.max finalStart finalEnd in
  String.substring (Z.to_nat from) (Z.to_nat (to - from)) s.

(** The group id that [generateFromSpringInitializr] sends:
    [config.packageName.substring(0, config.packageName.lastIndexOf('.'))]. *)
Definition groupId (packageName : string) : string :=
  substring packageName 0 (lastIndexOf packageName ".").

End JavaSpring.


(** * Properties *)

(** ** Loops *)

Section ForOf.
Context {E A S : Type}.
Implicit Types (body : A → S → option (completion E S)) (xs : list A).

(** A loop completes normally when each iteration does, along an
    invariant of the state. *)
Lemma forOf_total body (I : S → Prop) xs s :
  I s →
  (∀ x s1, x ∈ xs → I s1 → ∃ s2, body x s1 = Some (Normal s2) ∧ I s2) →
  ∃ s', forOf body xs s = Some (Normal s') ∧ I s'.
Proof.
  revert s. induction xs as [|x xs IH]; intros s Hs Hstep; simpl.
  - eauto.
  - destruct (Hstep x s) as (s2 & -> & Hs2); [left | done |].
    apply IH; [done |]. intros y s1 Hy. apply Hstep. by right.
Qed.

(** An invariant indexed by the elements already processed. *)
Lemma forOf_ind body (I : list A → S → Prop) xs s s' :
  I [] s →
  (∀ done x s1 s2,
      x ∈ xs → I done s1 → body x s1 = Some (Normal s2) → I (done ++ [x]) s2) →
  forOf body xs s = Some (Normal s') →
  I xs s'.
Proof.
  intros H0 Hstep.
  enough (G : ∀ rest done s1,
             (∀ x, x ∈ rest → x ∈ xs) → I done s1 →
             forOf body rest s1 = Some (Normal s') → I (done ++ rest) s').
  { intros Hrun. by apply (G xs [] s). }
  induction rest as [|x rest IH]; intros done s1 Hsub Hs1 Hrun; simpl in Hrun.
  - rewrite app_nil_r. congruence.
  - destruct (body x s1) as [[s2|e]|] eqn:Hx; try discriminate.
    replace (done ++ x :: rest) with ((done ++ [x]) ++ rest)
      by (by rewrite <- app_assoc).
    apply (IH _ s2); [| |done].
    + intros y Hy. apply Hsub. by right.
    + apply (Hstep done x s1); [apply Hsub; left | done | done].
Qed.

(** A loop whose iterations agree with those of another has its result. *)
Lemma forOf_mono body body' xs s r :
  (∀ x s1 r1, body x s1 = Some r1 → body' x s1 = Some r1) →
  forOf body xs s = Some r → forOf body' xs s = Some r.
Proof.
  intros Hb. revert s. induction xs as [|x xs IH]; intros s; simpl; [done |].
  destruct (body x s) as [[s2|e]|] eqn:Hx; intros Hrun; try discriminate.
  - rewrite (Hb _ _ _ Hx). by apply IH.
  - by rewrite (Hb _ _ _ Hx).
Qed.

(** A loop that does not complete normally stopped at one of its elements. *)
Lemma forOf_stops body xs s r :
  forOf body xs s = Some r → (∀ s', r ≠ Normal s') →
  ∃ done x rest s1, xs = done ++ x :: rest ∧
    forOf body done s = Some (Normal s1) ∧ body x s1 = Some r.
Proof.
  revert s. induction xs as [|x xs IH]; intros s; simpl.
  - intros [= <-] Hr. by destruct (Hr s).
  - destruct (body x s) as [[s2|e]|] eqn:Hx; intros Hrun Hr; try discriminate.
    + destruct (IH _ Hrun Hr) as (done & y & rest & s1 & -> & Hdone & Hy).
      exists (x :: done), y, rest, s1. simpl. by rewrite Hx.
    + exists [], x, xs, s. by rewrite Hx.
Qed.

(** A loop returns when each of its iterations does. *)
Lemma forOf_some body xs s :
  (∀ x s1, x ∈ xs → ∃ r, body x s1 = Some r) → ∃ r, forOf body xs s = Some r.
Proof.
  revert s. induction xs as [|x xs IH]; intros s Hb; simpl; [by eauto |].
  destruct (Hb x s) as [[s2 | e] ->]; [left | | by eauto].
  apply IH. intros y s1 Hy. apply Hb. by right.
Qed.

(** A loop does not complete normally past an element whose iteration
    never does. *)
Lemma forOf_blocked body xs x :
  x ∈ xs → (∀ s1 s2, body x s1 ≠ Some (Normal s2)) →
  ∀ s s', forOf body xs s ≠ Some (Normal s').
Proof.
  intros Hx Hb. induction xs as [|y xs IH]; intros s s'; simpl.
  - by apply elem_of_nil in Hx.
  - destruct (body y s) as [[s2 | e] |] eqn:Hy; try done.
    apply elem_of_cons in Hx as [-> | Hx]; [by destruct (Hb s s2) | by apply IH].
Qed.

(** A loop follows a map of the states that its iterations follow. *)
Lemma forOf_sim body (f : S → S) xs s s' :
  (∀ x s1 s2, body x s1 = Some (Normal s2) → body x (f s1) = Some (Normal (f s2))) →
  forOf body xs s = Some (Normal s') → forOf body xs (f s) = Some (Normal (f s')).
Proof.
  intros Hb. revert s. induction xs as [|x xs IH]; intros s; simpl.
  - by intros [= <-].
  - destruct (body x s) as [[s2 | e] |] eqn:Hx; try done.
    rewrite (Hb _ _ _ Hx). apply IH.
Qed.
End ForOf.

(** ** The registry *)

Module RegistryFacts.
Import Registry.

Section Lookup.
Context (this : PluginRegistry).

Lemma hasPlugin_true name : hasPlugin this name = true ↔ is_Some (this !! name).
Proof. unfold hasPlugin. rewrite is_Some_alt. destruct (this !! name); naive_solver. Qed.

Lemma hasPlugin_false name : hasPlugin this name = false ↔ this !! name = None.
Proof. unfold hasPlugin. by destruct (this !! name). Qed.

Lemma getPlugin_Some name plugin :
  this !! name = Some plugin → getPlugin this name = Normal plugin.
Proof. intros H. unfold getPlugin, hasPlugin. by rewrite H. Qed.

Lemma getPlugin_None name :
  this !! name = None → getPlugin this name = Throw (PluginNotFound name).
Proof. intros H. unfold getPlugin, hasPlugin. by rewrite H. Qed.

Lemma unseen_bound seen : unseen this seen <= size this.
Proof.
  unfold unseen. rewrite <- (size_dom (D := gset string)).
  apply subseteq_size. set_solver.
Qed.

Lemma unseen_mono seen seen' : seen ⊆ seen' → unseen this seen' <= unseen this seen.
Proof. intros H. unfold unseen. apply subseteq_size. set_solver. Qed.

Lemma unseen_add name seen :
  is_Some (this !! name) → name ∉ seen → unseen this ({[name]} ∪ seen) < unseen this seen.
Proof.
  intros Hreg Hnew. unfold unseen. apply subset_size.
  apply elem_of_dom in Hreg. set_solver.
Qed.
End Lookup.

(** *** The traversal of getPluginsInDependencyOrder *)

Section Visit.
Context (this : PluginRegistry).

Lemma visit_unfold fuel name st :
  visit (S fuel) this name st =
  if decide (name ∈ visited st) then Some (Normal st)
  else
    let st := {| result := result st; visited := {[name]} ∪ visited st |} in
    if hasPlugin this name
    then
      match getPlugin this name with
      | Throw e => Some (Throw e)
      | Normal plugin =>
          match forOf (visit fuel this) (getDependencies plugin) st with
          | Some (Normal st) =>
              if negb (includes (result st) name)
              then Some (Normal {| result := result st ++ [name];
                                   visited := visited st |})
              else Some (Normal st)
          | r => r
          end
      end
    else Some (Normal st).
Proof. reflexivity. Qed.

(** With more fuel than registered names still unvisited, a visit returns;
    it only ever adds to the visited set. *)
Lemma visit_total fuel name st :
  unseen this (visited st) < fuel →
  ∃ st', visit fuel this name st = Some (Normal st') ∧ visited st ⊆ visited st'.
Proof.
  revert name st. induction fuel as [|fuel IH]; intros name st Hfuel; [lia |].
  rewrite visit_unfold. destruct (decide (name ∈ visited st)) as [|Hnew]; [by eauto |].
  cbv zeta. destruct (hasPlugin this name) eqn:Hhas.
  - apply hasPlugin_true in Hhas as Hreg. destruct Hreg as [plugin Hp].
    rewrite (getPlugin_Some _ _ _ Hp).
    pose proof (unseen_add this name (visited st) (mk_is_Some _ _ Hp) Hnew) as Hlt.
    set (st1 := {| result := result st; visited := {[name]} ∪ visited st |}) in *.
    destruct (forOf_total (visit fuel this) (λ s, visited st1 ⊆ visited s)
                (getDependencies plugin) st1) as (st2 & -> & Hsub); [done | |].
    + intros dep s1 _ Hs1.
      destruct (IH dep s1) as (s2 & Hrun & Hs2).
      { pose proof (unseen_mono this _ _ Hs1). simpl in *. lia. }
      exists s2. split; [done | set_solver].
    + simpl in Hsub. destruct (negb (includes (result st2) name));
        eexists; (split; [done |]); simpl; set_solver.
  - eexists; split; [done |]. simpl. set_solver.
Qed.

(** More fuel does not change the answer of a visit. *)
Lemma visit_fuel_mono fuel fuel' name st r :
  fuel <= fuel' → visit fuel this name st = Some r → visit fuel' this name st = Some r.
Proof.
  revert fuel' name st r. induction fuel as [|fuel IH]; intros fuel' name st r Hle; [done |].
  destruct fuel' as [|fuel']; [lia |]. rewrite !visit_unfold.
  destruct (decide _); [done |]. cbv zeta.
  destruct (hasPlugin this name); [| done].
  destruct (getPlugin this name) as [plugin | e]; [| done].
  destruct (forOf (visit fuel this) _ _) as [r1|] eqn:Hloop; [| by destruct r].
  rewrite (forOf_mono _ (visit fuel' this) _ _ _
             (λ x s1 r1, IH fuel' x s1 r1 ltac:(lia)) Hloop).
  done.
Qed.

Lemma extends_refl st : extends this st st.
Proof. split; [| done]. exists []. rewrite app_nil_r. split; [done | by intros ? ?%elem_of_nil]. Qed.

Lemma extends_trans st1 st2 st3 :
  extends this st1 st2 → extends this st2 st3 → extends this st1 st3.
Proof.
  intros [(e1 & H1 & R1) N1] [(e2 & H2 & R2) N2]. split; [| tauto].
  exists (e1 ++ e2). rewrite H2, H1, app_assoc. split; [done |].
  intros x [?|?]%elem_of_app; auto.
Qed.

Lemma visit_extends fuel name st st' :
  visit fuel this name st = Some (Normal st') → extends this st st'.
Proof.
  revert name st st'. induction fuel as [|fuel IH]; intros name st st'; [done |].
  rewrite visit_unfold. destruct (decide _); [intros [= <-]; apply extends_refl |].
  cbv zeta. destruct (hasPlugin this name) eqn:Hhas;
    [| intros [= <-]; split; [exists []; rewrite app_nil_r; split;
                                [done | by intros ? ?%elem_of_nil] | done]].
  destruct (getPlugin this name) as [plugin | e]; [| done].
  set (st1 := {| result := result st; visited := {[name]} ∪ visited st |}).
  destruct (forOf _ _ st1) as [[st2 | e] |] eqn:Hloop; try done.
  assert (extends this st st2) as Hext.
  { apply (extends_trans _ st1); [apply (extends_refl st) |].
    apply (forOf_ind _ (λ _ s, extends this st1 s) _ _ _ (extends_refl st1)) in Hloop;
      [done |].
    intros _ dep s1 s2 _ Hs1 Hrun. eapply extends_trans; [done | by eapply IH]. }
  unfold includes. destruct (bool_decide_reflect (name ∈ result st2)) as [|Hnotin]; simpl;
    intros [= <-]; [done |].
  eapply extends_trans; [done |]. split; simpl.
  - exists [name]. split; [done |]. intros x ->%list_elem_of_singleton.
    by apply hasPlugin_true.
  - intros Hnd. apply NoDup_app. split_and!; [done | | apply NoDup_singleton].
    intros x Hx ->%list_elem_of_singleton. done.
Qed.

(** **** Ordering, on an acyclic graph *)

Lemma before_app_r a b xs ys : before a b xs → before a b (xs ++ ys).
Proof.
  intros (l1 & l2 & l3 & ->). exists l1, l2, (l3 ++ ys).
  by rewrite <- !app_assoc, <- !app_comm_cons, <- app_assoc.
Qed.

Lemma before_snoc a b xs : a ∈ xs → before a b (xs ++ [b]).
Proof.
  intros (l1 & l2 & ->)%list_elem_of_split. exists l1, l2, [].
  by rewrite <- app_assoc.
Qed.

Lemma before_elem_of a b xs : before a b xs → a ∈ xs ∧ b ∈ xs.
Proof. intros (l1 & l2 & l3 & ->). set_solver. Qed.

(** In a list without duplicates an element splits the list in one way. *)
Lemma NoDup_split_unique (b : string) l1 l2 m1 m2 :
  NoDup (l1 ++ b :: l2) → l1 ++ b :: l2 = m1 ++ b :: m2 → l1 = m1 ∧ l2 = m2.
Proof.
  revert m1. induction l1 as [|x l1 IH]; intros [|y m1] Hnd Heq; simpl in *.
  - by injection Heq.
  - injection Heq as <- ->. apply NoDup_cons in Hnd as [Hb _].
    destruct Hb. set_solver.
  - injection Heq as -> <-. apply NoDup_cons in Hnd as [Hb _].
    destruct Hb. set_solver.
  - injection Heq as <- Heq. apply NoDup_cons in Hnd as [_ Hnd].
    destruct (IH _ Hnd Heq) as [-> ->]. done.
Qed.

Lemma before_trans a b c xs :
  NoDup xs → before a b xs → before b c xs → before a c xs.
Proof.
  intros Hnd (l1 & l2 & l3 & Hab) (m1 & m2 & m3 & Hbc).
  assert (l1 ++ a :: l2 = m1 ∧ l3 = m2 ++ c :: m3) as [<- ->].
  { apply (NoDup_split_unique b).
    - rewrite <- app_assoc, <- app_comm_cons. by rewrite <- Hab.
    - rewrite <- app_assoc, <- app_comm_cons. by rewrite <- Hab. }
  exists l1, (l2 ++ b :: m2), m3. rewrite Hab.
  by rewrite <- !app_assoc, <- !app_comm_cons.
Qed.

Lemma visit_order fuel name st st' stack :
  acyclic this →
  visit fuel this name st = Some (Normal st') →
  (∀ s, s ∈ stack → tc (depends this) s name) →
  settled this stack st → ordered this st →
  settled this stack st' ∧ ordered this st' ∧ (name ∈ result st' ∨ this !! name = None).
Proof.
  intros Hacyc. revert name st st' stack.
  induction fuel as [|fuel IH]; intros name st st' stack; [done |].
  rewrite visit_unfold. destruct (decide _) as [Hseen | Hnew].
  { intros [= <-] Hstack Hset Hord. split_and!; [done | done |].
    destruct (Hset _ Hseen) as [? | [? | Hin]]; [by left | by right |].
    destruct (Hacyc name). by apply Hstack. }
  cbv zeta. set (st1 := {| result := result st; visited := {[name]} ∪ visited st |}).
  destruct (hasPlugin this name) eqn:Hhas.
  2:{ apply hasPlugin_false in Hhas. intros [= <-] Hstack Hset Hord.
      split_and!; [| done | by right].
      intros v [->%elem_of_singleton | Hv]%elem_of_union; [by right; left |].
      by apply Hset. }
  apply hasPlugin_true in Hhas as [plugin Hp].
  rewrite (getPlugin_Some _ _ _ Hp).
  destruct (forOf _ _ st1) as [[st2 | e] |] eqn:Hloop; try done.
  intros Hfinal Hstack Hset Hord.
  assert (settled this (name :: stack) st2 ∧ ordered this st2 ∧
          ∀ d, d ∈ getDependencies plugin → d ∈ result st2 ∨ this !! d = None)
    as (Hset2 & Hord2 & Hdeps).
  { apply (forOf_ind _ (λ done s, settled this (name :: stack) s ∧ ordered this s ∧
                          ∀ d, d ∈ done → d ∈ result s ∨ this !! d = None))
      in Hloop; [done | |].
    - split_and!; [| done | by intros ? ?%elem_of_nil].
      intros v [->%elem_of_singleton | Hv]%elem_of_union; [right; right; left |].
      destruct (Hset _ Hv) as [? | [? | ?]]; [by left | by right; left |].
      right; right. by right.
    - intros done dep s1 s2 Hdep (Hs1 & Ho1 & Hd1) Hrun.
      destruct (IH _ _ _ (name :: stack) Hrun) as (Hs2 & Ho2 & Hr2); [| done | done |].
      + intros s [-> | Hs]%elem_of_cons.
        * apply tc_once. by exists plugin.
        * eapply tc_r; [by apply Hstack |]. by exists plugin.
      + split_and!; [done | done |].
        intros d [Hd | ->%list_elem_of_singleton]%elem_of_app; [| done].
        destruct (Hd1 _ Hd) as [Hin | ?]; [left | by right].
        destruct (visit_extends _ _ _ _ Hrun) as [(extra & -> & _) _].
        apply elem_of_app. by left. }
  assert (∀ v, v ∈ visited st2 → v ≠ name → v ∈ result st2 ∨ this !! v = None ∨ v ∈ stack)
    as Hset2'.
  { intros v Hv Hne. destruct (Hset2 _ Hv) as [? | [? | [? | ?]%elem_of_cons]]; auto; done. }
  unfold includes in Hfinal.
  destruct (bool_decide_reflect (name ∈ result st2)) as [Hin | Hnotin]; simpl in Hfinal;
    injection Hfinal as <-.
  { split_and!; [| done | by left].
    intros v Hv. destruct (decide (v = name)) as [-> |]; [by left | by apply Hset2']. }
  split_and!; simpl.
  - intros v Hv. destruct (decide (v = name)) as [-> |].
    + left. apply elem_of_app. right. by left.
    + destruct (Hset2' _ Hv) as [? | [? | ?]]; auto. left. apply elem_of_app. by left.
  - intros n d [Hn | ->%list_elem_of_singleton]%elem_of_app Hnd Hd.
    + apply before_app_r. by apply Hord2.
    + destruct Hnd as (plugin' & Hp' & Hd'). simplify_eq.
      apply before_snoc. destruct (Hdeps _ Hd') as [? | Hnone]; [done |].
      rewrite Hnone in Hd. by destruct Hd.
  - left. apply elem_of_app. right. by left.
Qed.
End Visit.

(** **** Names that are not registered *)

Lemma mark_idemp (unknown : string) (st : OrderState) :
  unknown ∈ visited st → mark unknown st = st.
Proof.
  intros Hin. destruct st as [r v]. unfold mark. simpl in *. f_equal. set_solver.
Qed.

Lemma mark_comm (unknown name : string) (st : OrderState) :
  {| result := result (mark unknown st); visited := {[name]} ∪ visited (mark unknown st) |}
  = mark unknown {| result := result st; visited := {[name]} ∪ visited st |}.
Proof. unfold mark. simpl. f_equal. set_solver. Qed.

Section Unknown.
Context (this : PluginRegistry) (unknown : string).
Hypothesis unknown_unregistered : this !! unknown = None.

(** Visiting the unregistered name marks it, and does nothing else. *)
Lemma visit_unknown fuel st :
  visit (S fuel) this unknown st = Some (Normal (mark unknown st)).
Proof.
  rewrite visit_unfold. destruct (decide _) as [Hin | _]; [by rewrite mark_idemp |].
  cbv zeta. apply hasPlugin_false in unknown_unregistered. by rewrite unknown_unregistered.
Qed.

(** A visit does the same from a state where the unregistered name is
    marked. *)
Lemma visit_marked fuel name st st' :
  visit fuel this name st = Some (Normal st') →
  visit fuel this name (mark unknown st) = Some (Normal (mark unknown st')).
Proof.
  revert name st st'. induction fuel as [|fuel IH]; intros name st st'; [done |].
  destruct (decide (name = unknown)) as [-> | Hne].
  { rewrite !visit_unknown. by intros [= <-]. }
  rewrite !visit_unfold. destruct (decide (name ∈ visited st)) as [Hin | Hnew].
  { intros [= <-]. rewrite decide_True; [done |]. simpl. set_solver. }
  rewrite decide_False; [| simpl; set_solver]. cbv zeta. rewrite mark_comm.
  set (st1 := {| result := result st; visited := {[name]} ∪ visited st |}).
  destruct (hasPlugin this name); [| by intros [= <-]].
  destruct (getPlugin this name) as [plugin | e]; [| done].
  destruct (forOf _ _ st1) as [[st2 | e] |] eqn:Hloop; try done.
  rewrite (forOf_sim _ (mark unknown) _ _ _ (λ x s s', IH x s s') Hloop).
  simpl. destruct (negb (includes (result st2) name)); by intros [= <-].
Qed.
End Unknown.

(** *** resolveDependencies *)

Section Resolve.
Context (this : PluginRegistry).

Lemma resolve_unfold fuel name seen :
  resolveDependencies (S fuel) this name seen =
  if decide (name ∈ seen) then Some (Throw (CircularDependency name))
  else
    match getPlugin this name with
    | Throw e => Some (Throw e)
    | Normal plugin =>
        forOf (λ dep _,
                 if negb (hasPlugin this dep)
                 then Some (Throw (UnresolvedDependency dep name))
                 else resolveDependencies fuel this dep ({[name]} ∪ seen))
              (getDependencies plugin) tt
    end.
Proof. reflexivity. Qed.

(** With more fuel than registered names outside [seen], the check returns. *)
Lemma resolve_total fuel name seen :
  unseen this seen < fuel → ∃ r, resolveDependencies fuel this name seen = Some r.
Proof.
  revert name seen. induction fuel as [|fuel IH]; intros name seen Hfuel; [lia |].
  rewrite resolve_unfold. destruct (decide _) as [| Hnew]; [by eauto |].
  destruct (this !! name) as [plugin |] eqn:Hp.
  - rewrite (getPlugin_Some _ _ _ Hp). apply forOf_some. intros dep [] _.
    destruct (negb _); [by eauto |]. apply IH.
    pose proof (unseen_add this name seen (mk_is_Some _ _ Hp) Hnew). lia.
  - rewrite (getPlugin_None _ _ Hp). by eauto.
Qed.

(** More fuel does not change the answer of the check. *)
Lemma resolve_fuel_mono fuel fuel' name seen r :
  fuel <= fuel' →
  resolveDependencies fuel this name seen = Some r →
  resolveDependencies fuel' this name seen = Some r.
Proof.
  revert fuel' name seen r. induction fuel as [|fuel IH]; intros fuel' name seen r Hle; [done |].
  destruct fuel' as [|fuel']; [lia |]. rewrite !resolve_unfold.
  destruct (decide _); [done |].
  destruct (getPlugin this name) as [plugin | e]; [| done].
  apply forOf_mono. intros dep [] r1. destruct (negb _); [done |].
  apply IH. lia.
Qed.

(** A plugin with a missing name among its direct or transitive
    dependencies never passes the check. *)
Lemma resolve_missing name missing :
  rtc (depends this) name missing → this !! missing = None →
  ∀ fuel seen, resolveDependencies fuel this name seen ≠ Some (Normal tt).
Proof.
  induction 1 as [name | name dep missing Hdep Hpath IH]; intros Hnone fuel seen.
  - destruct fuel as [|fuel]; [done |]. rewrite resolve_unfold.
    destruct (decide _); [done |]. by rewrite (getPlugin_None _ _ Hnone).
  - destruct fuel as [|fuel]; [done |]. rewrite resolve_unfold.
    destruct (decide _); [done |]. destruct Hdep as (plugin & Hp & Hin).
    rewrite (getPlugin_Some _ _ _ Hp).
    apply (forOf_blocked _ _ dep Hin). intros [] [].
    destruct (negb _); [done |]. by apply IH.
Qed.

Lemma explains_step outer name dep e :
  depends this name dep → is_Some (this !! dep) →
  explains this outer dep e → explains this outer name e.
Proof.
  intros Hdep [plugin Hp]. destruct e as [x | x | x | d p]; simpl; [done | | |].
  - intros [-> ?]. congruence.
  - intros [? ?]. split; [by eapply rtc_l | done].
  - intros (? & ? & ?). split_and!; [by eapply rtc_l | done | done].
Qed.

Lemma resolve_throws fuel name seen outer e :
  resolveDependencies fuel this name seen = Some (Throw e) →
  (∀ v, v ∈ seen → v ∈ outer ∨ tc (depends this) v name) →
  explains this outer name e.
Proof.
  revert name seen e. induction fuel as [|fuel IH]; intros name seen e; [done |].
  rewrite resolve_unfold. destruct (decide _) as [Hseen | Hnew].
  { intros [= <-] Hpath. split; [done | by apply Hpath]. }
  destruct (this !! name) as [plugin |] eqn:Hp.
  2:{ rewrite (getPlugin_None _ _ Hp). by intros [= <-] _. }
  rewrite (getPlugin_Some _ _ _ Hp). intros Hloop Hpath.
  apply forOf_stops in Hloop as (pre & dep & rest & [] & Hdeps & _ & Hbody); [| by intros []].
  assert (depends this name dep) as Hdep.
  { exists plugin. split; [done |]. rewrite Hdeps. set_solver. }
  destruct (hasPlugin this dep) eqn:Hhas; simpl in Hbody.
  - apply hasPlugin_true in Hhas. apply (explains_step _ _ dep); [done | done |].
    apply (IH _ _ _ Hbody).
    intros v [->%elem_of_singleton | Hv]%elem_of_union; [right; by apply tc_once |].
    destruct (Hpath _ Hv) as [Hout | Htc]; [by left | right; by eapply tc_r].
  - apply hasPlugin_false in Hhas. injection Hbody as <-. simpl. done.
Qed.
End Resolve.

(** *** getPluginsInDependencyOrder *)

Section Order.
Context (this : PluginRegistry).

Lemma visit_returns name st :
  ∃ st', visit (S (size this)) this name st = Some (Normal st').
Proof.
  destruct (visit_total this (S (size this)) name st) as (st' & ? & _); [| by eauto].
  pose proof (unseen_bound this (visited st)). lia.
Qed.

Lemma order_run pluginNames :
  ∃ st, forOf (visit (S (size this)) this) pluginNames start = Some (Normal st).
Proof.
  destruct (forOf_total (visit (S (size this)) this) (λ _, True) pluginNames start)
    as (st & Hrun & _); [done | | by eauto].
  intros name s1 _ _. destruct (visit_returns name s1) as [s2 ?]. by eauto.
Qed.

(** Requests for a name that is not registered can be dropped: the loop ends
    in the same state, up to the mark of that name. *)
Lemma order_drop_unknown unknown pluginNames st su st' :
  this !! unknown = None →
  st = su ∨ st = mark unknown su →
  forOf (visit (S (size this)) this) pluginNames st = Some (Normal st') →
  ∃ su', forOf (visit (S (size this)) this) (filter (λ n, n ≠ unknown) pluginNames) su
         = Some (Normal su')
         ∧ (st' = su' ∨ st' = mark unknown su').
Proof.
  intros Hnone. revert st su.
  induction pluginNames as [|name names IH]; intros st su Hrel; cbn [forOf].
  { intros [= <-]. by eauto. }
  destruct (visit (S (size this)) this name st) as [[st1 | e] |] eqn:Hvisit; try done.
  intros Hrun. destruct (decide (name = unknown)) as [-> | Hne].
  - rewrite filter_cons_False by (by intros []).
    rewrite (visit_unknown this unknown Hnone) in Hvisit. injection Hvisit as <-.
    apply (IH (mark unknown st) su); [| done].
    destruct Hrel as [-> | ->]; [by right |].
    right. apply mark_idemp. simpl. set_solver.
  - rewrite filter_cons_True by done. cbn [forOf].
    destruct (visit_returns name su) as [su1 Hsu].
    rewrite Hsu. apply (IH st1 su1); [| done].
    destruct Hrel as [-> | ->]; [left; congruence |].
    right. rewrite (visit_marked this unknown Hnone _ _ _ _ Hsu) in Hvisit. congruence.
Qed.

Lemma order_unfold pluginNames st :
  forOf (visit (S (size this)) this) pluginNames start = Some (Normal st) →
  getPluginsInDependencyOrder this pluginNames = Some (Normal (result st)).
Proof. intros H. unfold getPluginsInDependencyOrder. fold start. by rewrite H. Qed.

Lemma order_extends pluginNames st :
  forOf (visit (S (size this)) this) pluginNames start = Some (Normal st) →
  extends this start st.
Proof.
  intros Hrun.
  apply (forOf_ind _ (λ _ s, extends this start s) _ _ _ (extends_refl this start)) in Hrun;
    [done |].
  intros _ name s1 s2 _ Hs1 Hstep.
  eapply extends_trans; [done | by eapply visit_extends].
Qed.

(** The fuel chosen by the entry point is immaterial. *)
Lemma order_fuel fuel pluginNames st :
  S (size this) <= fuel →
  forOf (visit (S (size this)) this) pluginNames start = Some (Normal st) →
  forOf (visit fuel this) pluginNames start = Some (Normal st).
Proof. intros Hle. apply forOf_mono. intros x s1 r1. by apply visit_fuel_mono. Qed.
End Order.

(** *** Sample registries *)

(** A graph whose edges between registered names go down a rank is acyclic. *)
Lemma acyclic_ranked (this : PluginRegistry) (rank : string → nat) :
  (∀ a b, depends this a b → is_Some (this !! b) → rank b < rank a) →
  acyclic this.
Proof.
  intros Hrank.
  assert (∀ a b, tc (depends this) a b → is_Some (this !! b) → rank b < rank a) as Htc.
  { induction 1 as [a b Hab | a c b Hac Hcb IH]; intros Hb; [by apply Hrank |].
    assert (is_Some (this !! c)) as Hc.
    { inversion Hcb as [? ? (p & Hp & _) | ? ? ? (p & Hp & _)]; by eexists. }
    specialize (IH Hb). specialize (Hrank _ _ Hac Hc). lia. }
  intros name Hcyc.
  assert (is_Some (this !! name)) as Hreg.
  { inversion Hcyc as [? ? (p & Hp & _) | ? ? ? (p & Hp & _)]; by eexists. }
  specialize (Htc _ _ Hcyc Hreg). lia.
Qed.

Lemma chainAB_lookup :
  chainAB = <["B" := mkPlugin "B" []]> (<["A" := mkPlugin "A" ["B"]]> ∅).
Proof. reflexivity. Qed.

Lemma chainAB_acyclic : acyclic chainAB.
Proof.
  apply (acyclic_ranked _ (λ n, if bool_decide (n = "A") then 1 else 0)).
  intros a b (plugin & Hp & Hin) Hb. rewrite chainAB_lookup in Hp, Hb.
  rewrite lookup_insert in Hp. case_decide as Ha; simplify_eq.
  { simpl in Hin. by apply elem_of_nil in Hin. }
  rewrite lookup_insert in Hp. case_decide as Ha'; simplify_eq.
  simpl in Hin. apply list_elem_of_singleton in Hin as ->.
  vm_compute. lia.
Qed.

Example chain_example :
  getPluginsInDependencyOrder chainAB ["A"] = Some (Normal ["B"; "A"])
  ∧ resolveDependencies0 chainAB "A" = Some (Normal tt).
Proof. split; reflexivity. Qed.

(** C10. For every registry, cyclic or with dependencies that are not
    registered, and every request list, getPluginsInDependencyOrder returns:
    it neither runs out of stack nor throws; every name of the returned list
    is a registered plugin name, and no name occurs twice. *)
Theorem order_returns_registered_names (this : PluginRegistry) (pluginNames : list string) :
  ∃ order,
    getPluginsInDependencyOrder this pluginNames = Some (Normal order)
    ∧ (∀ name, name ∈ order → is_Some (this !! name))
    ∧ NoDup order.
Proof.
  destruct (order_run this pluginNames) as [st Hrun].
  exists (result st). split; [by apply order_unfold |].
  destruct (order_extends _ _ _ Hrun) as [(extra & Hres & Hreg) Hnd].
  simpl in Hres. rewrite Hres. split; [done |].
  rewrite <- Hres. apply Hnd. simpl. apply NoDup_nil_2.
Qed.

(** C5. A requested name that is not in the registry is absent from the list
    getPluginsInDependencyOrder returns, and the call does not throw: the
    list is the one returned for the request without that name. *)
Theorem order_skips_unknown_name (this : PluginRegistry) (pluginNames : list string)
    (name : string) :
  name ∈ pluginNames → this !! name = None →
  ∃ order,
    getPluginsInDependencyOrder this pluginNames = Some (Normal order)
    ∧ (name ∉ order)
    ∧ getPluginsInDependencyOrder this (filter (λ n, n ≠ name) pluginNames)
      = Some (Normal order).
Proof.
  intros _ Hnone.
  destruct (order_run this pluginNames) as [st Hrun].
  exists (result st). split_and!; [by apply order_unfold | |].
  - destruct (order_extends _ _ _ Hrun) as [(extra & Hres & Hreg) _].
    simpl in Hres. rewrite Hres. intros Hin.
    destruct (Hreg _ Hin) as [plugin Hp]. congruence.
  - destruct (order_drop_unknown this name _ start start _ Hnone (or_introl eq_refl) Hrun)
      as (su & Hsu & Hrel).
    rewrite (order_unfold _ _ _ Hsu). by destruct Hrel as [-> | ->].
Qed.

Lemma order_skips_unknown_name_witness :
  "X" ∈ ["A"; "X"; "B"] ∧ chainAB !! "X" = None ∧
  ∃ order,
    getPluginsInDependencyOrder chainAB ["A"; "X"; "B"] = Some (Normal order)
    ∧ ("X" ∉ order)
    ∧ getPluginsInDependencyOrder chainAB (filter (λ n, n ≠ "X") ["A"; "X"; "B"])
      = Some (Normal order).
Proof.
  assert ("X" ∈ ["A"; "X"; "B"]) as Hin by (right; left).
  assert (chainAB !! "X" = None) as Hnone by reflexivity.
  split_and!; [done | done |].
  exact (order_skips_unknown_name chainAB ["A"; "X"; "B"] "X" Hin Hnone).
Defined.

(** C3. For an acyclic dependency graph and every request list, duplicates
    and overlapping dependency chains included, the list returned by
    getPluginsInDependencyOrder has no duplicates, holds every requested
    registered name, and has every registered dependency of each of its
    names, direct or transitive, strictly before that name. *)
Theorem order_respects_dependencies (this : PluginRegistry) (pluginNames : list string) :
  acyclic this →
  ∃ order,
    getPluginsInDependencyOrder this pluginNames = Some (Normal order)
    ∧ NoDup order
    ∧ (∀ name, name ∈ pluginNames → is_Some (this !! name) → name ∈ order)
    ∧ (∀ name dep, name ∈ order → depends this name dep → is_Some (this !! dep) →
                   before dep name order)
    ∧ (∀ name dep, name ∈ order → tc (depends this) name dep → is_Some (this !! dep) →
                   before dep name order).
Proof.
  intros Hacyc.
  destruct (order_run this pluginNames) as [st Hrun].
  exists (result st). split; [by apply order_unfold |].
  destruct (order_extends _ _ _ Hrun) as [_ Hnd].
  assert (NoDup (result st)) as Hnodup by (apply Hnd; simpl; apply NoDup_nil_2).
  split; [done |].
  apply (forOf_ind _ (λ done s, settled this [] s ∧ ordered this s ∧
                        ∀ n, n ∈ done → n ∈ result s ∨ this !! n = None)) in Hrun.
  - destruct Hrun as (_ & Hord & Hall). split_and!; [| done |].
    + intros name Hin [plugin Hp]. destruct (Hall _ Hin); [done | congruence].
    + intros name dep Hin Hpath. revert Hin.
      induction Hpath as [name dep Hdep | name mid dep Hdep Hpath IH]; intros Hin Hreg.
      * by apply Hord.
      * assert (is_Some (this !! mid)) as Hmid.
        { inversion Hpath as [? ? (p & Hp & _) | ? ? ? (p & Hp & _)]; by eexists. }
        pose proof (Hord _ _ Hin Hdep Hmid) as Hbefore.
        apply (before_trans _ mid); [done | | done].
        apply IH; [| done]. by apply (before_elem_of _ _ _ Hbefore).
  - split_and!.
    + by intros v ?%elem_of_empty.
    + by intros n d ?%elem_of_nil.
    + by intros n ?%elem_of_nil.
  - intros done name s1 s2 _ (Hs1 & Ho1 & Hd1) Hstep.
    destruct (visit_order this _ _ _ _ [] Hacyc Hstep) as (Hs2 & Ho2 & Hr2);
      [by intros s ?%elem_of_nil | done | done |].
    split_and!; [done | done |].
    intros n [Hn | ->%list_elem_of_singleton]%elem_of_app; [| done].
    destruct (Hd1 _ Hn) as [Hin | ?]; [left | by right].
    destruct (visit_extends _ _ _ _ _ Hstep) as [(extra & -> & _) _].
    apply elem_of_app. by left.
Qed.

Lemma order_respects_dependencies_witness :
  acyclic chainAB ∧
  ∃ order,
    getPluginsInDependencyOrder chainAB ["A"; "B"; "A"] = Some (Normal order)
    ∧ NoDup order
    ∧ (∀ name, name ∈ ["A"; "B"; "A"] → is_Some (chainAB !! name) → name ∈ order)
    ∧ (∀ name dep, name ∈ order → depends chainAB name dep → is_Some (chainAB !! dep) →
                   before dep name order)
    ∧ (∀ name dep, name ∈ order → tc (depends chainAB) name dep → is_Some (chainAB !! dep) →
                   before dep name order).
Proof.
  split; [exact chainAB_acyclic |].
  exact (order_respects_dependencies chainAB ["A"; "B"; "A"] chainAB_acyclic).
Defined.

(** C1.  The code at the cycle of the specification's example: [A] depends
    on [B] and [B] on [A].  getPluginsInDependencyOrder returns the list
    [B, A] where the claim asks for a cycle error; the check
    resolveDependencies, which the ordering never calls, reports the cycle on
    the same registry. *)
Theorem order_on_cycle_returns :
  depends cycleAB "A" "B" ∧ depends cycleAB "B" "A"
  ∧ getPluginsInDependencyOrder cycleAB ["A"] = Some (Normal ["B"; "A"])
  ∧ resolveDependencies0 cycleAB "A" = Some (Throw (CircularDependency "A")).
Proof.
  split_and!; [| | reflexivity | reflexivity].
  - exists (mkPlugin "A" ["B"]). split; [reflexivity | by left].
  - exists (mkPlugin "B" ["A"]). split; [reflexivity | by left].
Qed.

(** C4, as stated, fails: on a registry where the cycle [A], [B], [A] is met
    before the missing dependency [C] of [A], resolveDependencies raises the
    circular-dependency error naming [A]; no error naming [C] is raised. *)
Lemma resolve_reports_cycle_before_missing :
  is_Some (cycleThenMissing !! "A")
  ∧ depends cycleThenMissing "A" "C" ∧ cycleThenMissing !! "C" = None
  ∧ resolveDependencies0 cycleThenMissing "A" = Some (Throw (CircularDependency "A"))
  ∧ ∀ dep name,
      resolveDependencies0 cycleThenMissing "A" ≠ Some (Throw (UnresolvedDependency dep name)).
Proof.
  split_and!; [by eexists | | reflexivity | reflexivity | done].
  exists (mkPlugin "A" ["B"; "C"]). split; [reflexivity | set_solver].
Qed.

(** C4, amended.  For every registered plugin with a name that is not
    registered among its direct or transitive dependencies,
    resolveDependencies raises an error, and never returns normally: the
    error names an unregistered dependency and the plugin declaring it, unless
    a dependency cycle is met first, in which case it is the
    circular-dependency error naming a plugin of that cycle.  On an acyclic
    graph the error always names an unregistered dependency. *)
Theorem resolve_rejects_missing_dependency (this : PluginRegistry) (name missing : string) :
  is_Some (this !! name) →
  rtc (depends this) name missing → this !! missing = None →
  ∃ e, resolveDependencies0 this name = Some (Throw e)
       ∧ ((∃ dep plugin, e = UnresolvedDependency dep plugin ∧ this !! dep = None
                         ∧ depends this plugin dep ∧ rtc (depends this) name plugin)
          ∨ (∃ x, e = CircularDependency x ∧ tc (depends this) x x
                  ∧ rtc (depends this) name x))
       ∧ (acyclic this →
          ∃ dep plugin, e = UnresolvedDependency dep plugin ∧ this !! dep = None).
Proof.
  intros [plugin Hp] Hpath Hnone. unfold resolveDependencies0.
  destruct (resolve_total this (S (size this)) name ∅) as [r Hr].
  { pose proof (unseen_bound this ∅). lia. }
  destruct r as [[] | e]; [by destruct (resolve_missing this _ _ Hpath Hnone _ _ Hr) |].
  exists e. split; [done |].
  pose proof (resolve_throws this _ _ _ ∅ _ Hr ltac:(set_solver)) as He.
  destruct e as [x | x | x | d p]; simpl in He.
  - done.
  - destruct He as [_ ?]. congruence.
  - destruct He as [Hx [Hx' | Hcyc]]; [set_solver |].
    split; [right; by eauto |]. intros Hacyc. by destruct (Hacyc x).
  - destruct He as (Hp' & Hd & Hd').
    split; [left; by eauto 10 | by eauto].
Qed.

Lemma resolve_rejects_missing_dependency_witness :
  is_Some (chainMissing !! "A")
  ∧ rtc (depends chainMissing) "A" "X" ∧ chainMissing !! "X" = None
  ∧ ∃ e, resolveDependencies0 chainMissing "A" = Some (Throw e)
       ∧ ((∃ dep plugin, e = UnresolvedDependency dep plugin ∧ chainMissing !! dep = None
                         ∧ depends chainMissing plugin dep
                         ∧ rtc (depends chainMissing) "A" plugin)
          ∨ (∃ x, e = CircularDependency x ∧ tc (depends chainMissing) x x
                  ∧ rtc (depends chainMissing) "A" x))
       ∧ (acyclic chainMissing →
          ∃ dep plugin, e = UnresolvedDependency dep plugin ∧ chainMissing !! dep = None).
Proof.
  assert (is_Some (chainMissing !! "A")) as Hreg by (by eexists).
  assert (rtc (depends chainMissing) "A" "X") as Hpath.
  { apply (rtc_l _ _ "B"); [exists (mkPlugin "A" ["B"]); split; [reflexivity | by left] |].
    apply rtc_once. exists (mkPlugin "B" ["X"]). split; [reflexivity | by left]. }
  assert (chainMissing !! "X" = None) as Hnone by reflexivity.
  split_and!; [done | done | done |].
  exact (resolve_rejects_missing_dependency chainMissing "A" "X" Hreg Hpath Hnone).
Defined.

(** *** register *)

Lemma populated_keys this :
  populated this → ∀ k p, this !! k = Some p → getName p = k.
Proof.
  induction 1 as [| plugin this _ IH]; intros k p; [unfold empty; by rewrite lookup_empty |].
  unfold register. destruct (hasPlugin this (getName plugin)); simpl; [by apply IH |].
  rewrite lookup_insert. case_decide; [by intros [= <-] | by apply IH].
Qed.

Lemma populated_names_unique this : populated this → names_unique this.
Proof.
  intros Hpop k1 k2 p1 p2 H1 H2 Hname.
  pose proof (populated_keys _ Hpop _ _ H1). pose proof (populated_keys _ Hpop _ _ H2).
  assert (k1 = k2) as -> by congruence. split; [done | congruence].
Qed.

(** C9. Registering a plugin whose name is already a key of the map throws
    the error that names the duplicate and leaves the map as it was; and no
    two plugins of a registry built by [register] share a name. *)
Theorem register_duplicate_rejected :
  (∀ (this : PluginRegistry) (plugin : Plugin),
      is_Some (this !! getName plugin) →
      register plugin this = (Throw (AlreadyRegistered (getName plugin)), this)
      ∧ message (AlreadyRegistered (getName plugin))
        = "Plugin with name " +:+ dq +:+ getName plugin +:+ dq +:+ " is already registered")
  ∧ (∀ this : PluginRegistry, populated this → names_unique this).
Proof.
  split; [| exact populated_names_unique].
  intros this plugin Hdup. split; [| done].
  unfold register. apply hasPlugin_true in Hdup. by rewrite Hdup.
Qed.

Lemma register_duplicate_rejected_witness :
  is_Some (chainAB !! getName (mkPlugin "A" ["X"]))
  ∧ register (mkPlugin "A" ["X"]) chainAB = (Throw (AlreadyRegistered "A"), chainAB)
  ∧ populated chainAB ∧ names_unique chainAB.
Proof.
  assert (is_Some (chainAB !! getName (mkPlugin "A" ["X"]))) as Hdup by (by eexists).
  assert (populated chainAB) as Hpop.
  { apply (populated_register (mkPlugin "B" []) (register (mkPlugin "A" ["B"]) empty).2).
    apply populated_register. constructor. }
  split_and!; [done | | done |].
  - exact (proj1 (proj1 register_duplicate_rejected chainAB (mkPlugin "A" ["X"]) Hdup)).
  - exact (proj2 register_duplicate_rejected chainAB Hpop).
Defined.

End RegistryFacts.

(** ** The template processor *)

Module ProcessorFacts.
Import Processor.

Section Strings.
Lemma str_includes_cons c s sub :
  str_includes (String c s) sub =
  if String.prefix sub (String c s) then true else str_includes s sub.
Proof. reflexivity. Qed.

Lemma replaceAllFrom_cons literal replacement pre c s :
  replaceAllFrom literal replacement pre (String c s) 0 =
  if String.prefix literal (String c s)
  then getSubstitution literal pre (slice (String.length literal) (String c s)) replacement
       +:+ replaceAllFrom literal replacement (pre +:+ String c EmptyString) s
             (String.length literal - 1)
  else String c (replaceAllFrom literal replacement (pre +:+ String c EmptyString) s 0).
Proof. reflexivity. Qed.

(** Replacing a text that does not occur changes nothing, whatever the
    replacement. *)
Lemma replaceAllFrom_absent literal replacement pre s :
  str_includes s literal = false → replaceAllFrom literal replacement pre s 0 = s.
Proof.
  revert pre. induction s as [|c s IH]; intros pre; [done |].
  rewrite str_includes_cons, replaceAllFrom_cons.
  destruct (String.prefix literal (String c s)); [done |].
  intros Habs. by rewrite IH.
Qed.

Lemma replaceAll_absent literal replacement s :
  str_includes s literal = false → replaceAll literal replacement s = s.
Proof. apply replaceAllFrom_absent. Qed.

Lemma replaceFirstFrom_absent pattern replacement pre s :
  str_includes s pattern = false → replaceFirstFrom pattern replacement pre s = s.
Proof.
  revert pre. induction s as [|c s IH]; intros pre.
  - simpl. by destruct pattern.
  - rewrite str_includes_cons.
    change (replaceFirstFrom pattern replacement pre (String c s))
      with (if String.prefix pattern (String c s)
            then getSubstitution pattern pre
                   (slice (String.length pattern) (String c s)) replacement
                 +:+ slice (String.length pattern) (String c s)
            else String c (replaceFirstFrom pattern replacement
                             (pre +:+ String c EmptyString) s)).
    destruct (String.prefix pattern (String c s)); [done |].
    intros Habs. by rewrite IH.
Qed.
End Strings.

Section Substitution.

Lemma prefix_empty s : String.prefix EmptyString s = true.
Proof. by destruct s. Qed.

Lemma prefix_length p s : String.prefix p s = true → String.length p <= String.length s.
Proof.
  revert s. induction p as [|c p IH]; intros [|d s]; simpl; try done; try lia.
  destruct (ascii_dec c d); [| done]. intros H. specialize (IH _ H). lia.
Qed.

Lemma includes_char_cons c d s :
  str_includes (String d s) (String c EmptyString) =
  if ascii_dec c d then true else str_includes s (String c EmptyString).
Proof.
  rewrite str_includes_cons. simpl. destruct (ascii_dec c d); [| done].
  by rewrite prefix_empty.
Qed.

Lemma splitAt_cons pattern c s :
  splitAt pattern (String c s) =
  if String.prefix pattern (String c s)
  then Some (EmptyString, slice (String.length pattern) (String c s))
  else match splitAt pattern s with
       | Some (b, a) => Some (String c b, a)
       | None => None
       end.
Proof. reflexivity. Qed.

Lemma splitAt_includes pattern s :
  str_includes s pattern = match splitAt pattern s with Some _ => true | None => false end.
Proof.
  induction s as [|c s IH].
  - simpl. by destruct pattern.
  - rewrite str_includes_cons, splitAt_cons.
    destruct (String.prefix pattern (String c s)); [done |].
    rewrite IH. by destruct (splitAt pattern s) as [[? ?] |].
Qed.

(** A replacement text without [$] stands for itself. *)
Lemma getSubstitution_plain matched pre post replacement :
  str_includes replacement "$" = false →
  getSubstitution matched pre post replacement = replacement.
Proof.
  induction replacement as [|c r IH]; [done |].
  rewrite includes_char_cons. destruct (ascii_dec "$" c) as [| Hne]; [done |].
  intros Hplain. simpl.
  destruct (Ascii.eqb_spec c "$") as [-> | _]; [done |]. by rewrite IH.
Qed.

Context (literal replacement : string).
Hypothesis plain : str_includes replacement "$" = false.

Lemma replaceAllFrom_pre pre pre' s k :
  replaceAllFrom literal replacement pre s k = replaceAllFrom literal replacement pre' s k.
Proof.
  revert pre pre' k. induction s as [|c s IH]; intros pre pre' k; [done |].
  destruct k as [|k]; [| apply IH].
  rewrite !replaceAllFrom_cons. rewrite !getSubstitution_plain by done.
  destruct (String.prefix literal (String c s)); f_equal; apply IH.
Qed.

Lemma replaceAllFrom_skip pre s k :
  k <= String.length s →
  replaceAllFrom literal replacement pre s k
  = replaceAllFrom literal replacement pre (slice k s) 0.
Proof.
  revert pre k. induction s as [|c s IH]; intros pre k Hk.
  - simpl in Hk. by replace k with 0 by lia.
  - destruct k as [|k]; [done |]. simpl in Hk. cbn [slice].
    change (replaceAllFrom literal replacement pre (String c s) (S k))
      with (replaceAllFrom literal replacement (pre +:+ String c EmptyString) s k).
    rewrite IH by lia. apply replaceAllFrom_pre.
Qed.

Lemma replaceAll_unfold s :
  literal ≠ EmptyString →
  replaceAll literal replacement s =
  match splitAt literal s with
  | Some (a, b) => a +:+ replacement +:+ replaceAll literal replacement b
  | None => s
  end.
Proof.
  intros Hlit. induction s as [|c s IH].
  - simpl. by destruct literal.
  - unfold replaceAll. rewrite replaceAllFrom_cons, splitAt_cons.
    destruct (String.prefix literal (String c s)) eqn:Hpre.
    + rewrite getSubstitution_plain by done.
      match goal with |- _ = EmptyString +:+ ?r => change (EmptyString +:+ r) with r end.
      f_equal.
      pose proof (prefix_length _ _ Hpre) as Hlen. cbn [String.length] in Hlen.
      unfold replaceAll.
      destruct (String.length literal) as [|n] eqn:Hn; [by destruct literal |].
      replace (S n - 1) with n by lia.
      rewrite replaceAllFrom_skip by lia. cbn [slice]. apply replaceAllFrom_pre.
    + rewrite (replaceAllFrom_pre _ EmptyString). fold (replaceAll literal replacement s).
      rewrite IH. by destruct (splitAt literal s) as [[a b] |].
Qed.

Lemma replaceFirstFrom_unfold pre s :
  replaceFirstFrom literal replacement pre s =
  match splitAt literal s with
  | Some (a, b) => a +:+ replacement +:+ b
  | None => s
  end.
Proof.
  revert pre. induction s as [|c s IH]; intros pre.
  - destruct literal; simpl; [| done]. by rewrite getSubstitution_plain.
  - change (replaceFirstFrom literal replacement pre (String c s))
      with (if String.prefix literal (String c s)
            then getSubstitution literal pre
                   (slice (String.length literal) (String c s)) replacement
                 +:+ slice (String.length literal) (String c s)
            else String c (replaceFirstFrom literal replacement
                             (pre +:+ String c EmptyString) s)).
    rewrite splitAt_cons. destruct (String.prefix literal (String c s)).
    + by rewrite getSubstitution_plain.
    + rewrite IH. by destruct (splitAt literal s) as [[a b] |].
Qed.
End Substitution.

Lemma replaceAllFrom_dots pre p :
  replaceAllFrom "." "/" pre p 0 = mapChars dotToSlash p.
Proof.
  revert pre. induction p as [|c p IH]; intros pre; [done |].
  rewrite replaceAllFrom_cons. cbn [mapChars]. unfold dotToSlash.
  change (String.prefix "." (String c p))
    with (if ascii_dec "." c then String.prefix EmptyString p else false).
  destruct (ascii_dec "." c) as [<- | Hne].
  - rewrite prefix_empty. simpl. f_equal. apply IH.
  - destruct (Ascii.eqb_spec c ".") as [-> | _]; [done |]. f_equal. apply IH.
Qed.

Lemma replaceAll_dots p : replaceAll "." "/" p = mapChars dotToSlash p.
Proof. apply replaceAllFrom_dots. Qed.

Lemma mapChars_dots_plain p :
  str_includes p "$" = false → str_includes (mapChars dotToSlash p) "$" = false.
Proof.
  induction p as [|c p IH]; [done |]. simpl mapChars. rewrite !includes_char_cons.
  destruct (ascii_dec "$" c) as [| Hne]; [done |]. intros Hp.
  destruct (ascii_dec "$" (dotToSlash c)) as [Heq | _]; [| by apply IH].
  unfold dotToSlash in Heq. by destruct (Ascii.eqb_spec c ".").
Qed.

Section Run.
Context (template : Template).

Lemma interpolate_fst what text context w :
  (interpolate template what text context w).1 = interpolated template text context.
Proof.
  unfold interpolated, interpolate.
  destruct (_ && _); [| done]. by destruct (template text context).
Qed.

Lemma interpolate_fsOps what text context w :
  fsOps (interpolate template what text context w).2 = fsOps w.
Proof.
  unfold interpolate. destruct (_ && _); [| done]. by destruct (template text context).
Qed.

Lemma interpolated_unguarded text context :
  str_includes text "{{" && str_includes text "}}" = false →
  interpolated template text context = text.
Proof. intros H. unfold interpolated, interpolate. by rewrite H. Qed.

Lemma written_last l msg p d w :
  written (logger l msg (fs (WriteFile p d) w)) = Some (p, d).
Proof. unfold written, logger, fs. simpl. by rewrite rev_unit. Qed.

(** One call of [processFile] on a file the source holds. *)
Lemma processFile_run file content context templateSource w :
  getFileContent templateSource file = Normal content →
  ∃ w',
    processFile template file context templateSource w = (Normal tt, w')
    ∧ outputPathOf w' = Some (replacePackageDir context (interpolated template file context))
    ∧ writtenData w' =
        Some (if isTextFile file
              then replaceTokens context (interpolated template content context)
              else content)
    ∧ (∀ entry, entry ∈ logs w → entry ∈ logs w')
    ∧ (∀ msg, str_includes content "{{" && str_includes content "}}" = true →
              isTextFile file = true →
              template content context = Throw msg →
              (Warn, "Failed to process template variables in " +:+ file +:+ ": " +:+ msg)
                ∈ logs w').
Proof.
  intros Hcontent. unfold processFile. rewrite Hcontent.
  pose proof (interpolate_fst ("path " +:+ file) file context w) as Hpath.
  destruct (interpolate template ("path " +:+ file) file context w) as [outputPath w1] eqn:Hp1.
  assert (∀ entry, entry ∈ logs w → entry ∈ logs w1) as Hlogs1.
  { revert Hp1. unfold interpolate. destruct (_ && _); [| by intros [= _ <-]].
    destruct (template file context); intros [= _ <-]; [done |].
    intros entry Hin. simpl. apply elem_of_app. by left. }
  simpl in Hpath. subst outputPath.
  destruct (isTextFile file).
  - set (w2 := fs (EnsureDir _) w1).
    pose proof (interpolate_fst file content context w2) as Hdata.
    destruct (interpolate template file content context w2) as [textContent w3] eqn:Hp2.
    simpl in Hdata. subst textContent.
    eexists. split; [reflexivity |].
    unfold outputPathOf, writtenData. rewrite written_last.
    split_and!; [done | done | |].
    + intros entry Hin. simpl. apply elem_of_app. left.
      revert Hp2. unfold interpolate. destruct (_ && _); [| intros [= _ <-]; by apply Hlogs1].
      destruct (template content context); intros [= _ <-]; [by apply Hlogs1 |].
      simpl. apply elem_of_app. left. by apply Hlogs1.
    + intros msg Hguard _ Hthrow. simpl. apply elem_of_app. left.
      revert Hp2. unfold interpolate. rewrite Hguard, Hthrow. intros [= _ <-].
      simpl. apply elem_of_app. right. by left.
  - eexists. split; [reflexivity |].
    unfold outputPathOf, writtenData. rewrite written_last.
    split_and!; [done | done | | done].
    intros entry Hin. simpl. apply elem_of_app. left. by apply Hlogs1.
Qed.

(** The loop over files the source holds completes, whatever the evaluator
    does, and keeps every warning. *)
Lemma processFiles_run files context templateSource w :
  (∀ f, f ∈ files → ∃ c, getFileContent templateSource f = Normal c) →
  ∃ w',
    processFiles template files context templateSource w = (Normal tt, w')
    ∧ (∀ entry, entry ∈ logs w → entry ∈ logs w')
    ∧ (∀ f c msg,
         f ∈ files → getFileContent templateSource f = Normal c →
         str_includes c "{{" && str_includes c "}}" = true →
         isTextFile f = true → template c context = Throw msg →
         interpolationWarning f msg ∈ logs w').
Proof.
  revert w. induction files as [|file files IH]; intros w Hall.
  { exists w. split_and!; [done | done |]. by intros f c msg ?%elem_of_nil. }
  destruct (Hall file) as [content Hcontent]; [by left |].
  destruct (processFile_run file content context templateSource w Hcontent)
    as (w1 & Hrun & _ & _ & Hlogs1 & Hwarn1).
  destruct (IH w1) as (w2 & Hrest & Hlogs2 & Hwarn2).
  { intros f Hf. apply Hall. by right. }
  exists w2. cbn [processFiles]. rewrite Hrun. split_and!; [done | by auto |].
  intros f c msg [-> | Hf]%elem_of_cons Hc Hguard Htext Hthrow.
  - apply Hlogs2. assert (c = content) as -> by congruence. by apply Hwarn1.
  - by eapply Hwarn2.
Qed.

Lemma processTemplate_run files context templateSource w :
  getFiles templateSource = Normal files →
  (∀ f, f ∈ files → ∃ c, getFileContent templateSource f = Normal c) →
  ∃ w',
    processTemplate template context templateSource w = (Normal true, w')
    ∧ (∀ f c msg,
         f ∈ files → getFileContent templateSource f = Normal c →
         str_includes c "{{" && str_includes c "}}" = true →
         isTextFile f = true → template c context = Throw msg →
         interpolationWarning f msg ∈ logs w').
Proof.
  intros Hfiles Hall. unfold processTemplate. rewrite Hfiles.
  match goal with |- context [processFiles _ _ _ _ ?w0] =>
    destruct (processFiles_run files context templateSource w0 Hall)
      as (w1 & -> & _ & Hwarn)
  end.
  eexists. split; [done |]. intros f c msg Hf Hc Hguard Htext Hthrow.
  simpl. apply elem_of_app. left. by eapply Hwarn.
Qed.
End Run.

(** The package directory in a path, for a package name without [$]: the
    first occurrence of the token only. *)
Lemma replacePackageDir_split (context : Context) (package path : string) :
  packageName context = Some package → package ≠ EmptyString →
  str_includes package "$" = false →
  replacePackageDir context path =
  match splitAt "__packageDir__" path with
  | Some (before, after) => before +:+ mapChars dotToSlash package +:+ after
  | None => path
  end.
Proof.
  intros Hpkg Hne Hplain. unfold replacePackageDir, packageNameOf. rewrite Hpkg.
  destruct package as [|c package']; [done |]. cbn [truthy].
  rewrite splitAt_includes. unfold replaceFirst.
  rewrite replaceAll_dots, replaceFirstFrom_unfold by (by apply mapChars_dots_plain).
  by destruct (splitAt "__packageDir__" path) as [[a b] |].
Qed.

(** Form 1 on a text, case by case. *)
Lemma interpolated_cases (template : Template) (text : string) (context : Context) :
  (str_includes text "{{" && str_includes text "}}" = false →
   interpolated template text context = text)
  ∧ (∀ rendered, str_includes text "{{" && str_includes text "}}" = true →
       template text context = Normal rendered →
       interpolated template text context = rendered)
  ∧ (∀ msg, template text context = Throw msg →
       interpolated template text context = text).
Proof.
  unfold interpolated, interpolate. split_and!.
  - by intros ->.
  - intros rendered -> ->. done.
  - intros msg ->. by destruct (_ && _).
Qed.

(** C6. The output path of a file is made from its template path in two
    steps and no other.  Form 1: a path with both [{{] and [}}] is given to
    the evaluator, and what the evaluator renders goes on (the path itself
    when the evaluator throws, or when the pair is missing).  Form 3: when the
    context has a package name, the first [__packageDir__] of that path is
    replaced by the package name with its dots turned into slashes, the text
    before and after it being kept.  Tokens [${projectName}] and
    [${packageName}] are therefore left in the path as they are.  With name
    [orders-api] and package name [com.acme.orders], the path
    [__packageDir__/Main.java] becomes [com/acme/orders/Main.java]. *)
Theorem path_rewriting (template : Template) (file content : string)
    (context : Context) (templateSource : TemplateSource) (w : World) :
  getFileContent templateSource file = Normal content →
  ∃ w' rendered,
    processFile template file context templateSource w = (Normal tt, w')
    ∧ (str_includes file "{{" && str_includes file "}}" = false → rendered = file)
    ∧ (∀ path, str_includes file "{{" && str_includes file "}}" = true →
         template file context = Normal path → rendered = path)
    ∧ (∀ msg, template file context = Throw msg → rendered = file)
    ∧ (∀ package before after,
         packageName context = Some package → package ≠ EmptyString →
         str_includes package "$" = false →
         splitAt "__packageDir__" rendered = Some (before, after) →
         outputPathOf w' = Some (before +:+ mapChars dotToSlash package +:+ after))
    ∧ (∀ package,
         packageName context = Some package → package ≠ EmptyString →
         str_includes rendered "__packageDir__" = true →
         outputPathOf w'
         = Some (replaceFirst "__packageDir__" (replaceAll "." "/" package) rendered))
    ∧ (str_includes rendered "__packageDir__" = false → outputPathOf w' = Some rendered)
    ∧ (packageName context = None ∨ packageName context = Some EmptyString →
       outputPathOf w' = Some rendered)
    ∧ (file = "__packageDir__/Main.java" →
       name context = "orders-api" → packageName context = Some "com.acme.orders" →
       outputPathOf w' = Some "com/acme/orders/Main.java").
Proof.
  intros Hcontent.
  destruct (processFile_run template file content context templateSource w Hcontent)
    as (w' & Hrun & Hpath & _).
  destruct (interpolated_cases template file context) as (Hplain & Hnormal & Hthrow).
  exists w', (interpolated template file context).
  split_and!; [done | done | done | done | | | | |].
  - intros package before after Hpkg Hne Hdollar Hsplit.
    by rewrite Hpath, (replacePackageDir_split _ _ _ Hpkg Hne Hdollar), Hsplit.
  - intros package Hpkg Hne Htoken. rewrite Hpath.
    unfold replacePackageDir, packageNameOf. rewrite Hpkg, Htoken.
    by destruct package.
  - intros Htoken. rewrite Hpath. unfold replacePackageDir. rewrite Htoken.
    by destruct (packageNameOf context).
  - intros Hnone. rewrite Hpath. unfold replacePackageDir, packageNameOf.
    by destruct Hnone as [-> | ->].
  - intros -> Hname Hpkg. rewrite Hpath, Hplain by reflexivity.
    unfold replacePackageDir, packageNameOf. rewrite Hpkg. reflexivity.
Qed.

Lemma path_rewriting_witness :
  getFileContent
    (sourceOf [("{{name}}/${projectName}/__packageDir__/${packageName}.java", "x")])
    "{{name}}/${projectName}/__packageDir__/${packageName}.java" = Normal "x"
  ∧ ∃ w',
      processFile fieldTemplate "{{name}}/${projectName}/__packageDir__/${packageName}.java"
        ordersContext
        (sourceOf [("{{name}}/${projectName}/__packageDir__/${packageName}.java", "x")])
        world0 = (Normal tt, w')
      ∧ outputPathOf w' = Some "orders-api/${projectName}/com/acme/orders/${packageName}.java".
Proof.
  split; [reflexivity |].
  destruct (path_rewriting fieldTemplate
              "{{name}}/${projectName}/__packageDir__/${packageName}.java" "x" ordersContext
              (sourceOf [("{{name}}/${projectName}/__packageDir__/${packageName}.java", "x")])
              world0 eq_refl)
    as (w' & rendered & Hrun & _ & Hform1 & _ & Hform3 & _).
  exists w'. split; [done |].
  assert (rendered = "orders-api/${projectName}/__packageDir__/${packageName}.java") as ->.
  { by apply Hform1. }
  exact (Hform3 "com.acme.orders" "orders-api/${projectName}/" "/${packageName}.java"
           eq_refl ltac:(done) eq_refl eq_refl).
Defined.

(** C2, as stated, fails: in the content of a text file the token
    [__packageDir__] is written out as it is, although the context has a
    package name; the claim asks for [com/acme/orders] in its place. *)
Lemma content_keeps_packageDir :
  isTextFile "Main.java" = true
  ∧ packageNameOf ordersContext = Some "com.acme.orders"
  ∧ (∀ template : Template,
       ∃ w', processFile template "Main.java" ordersContext
               (sourceOf [("Main.java", "// src/__packageDir__")]) world0 = (Normal tt, w')
             ∧ writtenData w' = Some "// src/__packageDir__")
  ∧ replaceAll "__packageDir__" (replaceAll "." "/" "com.acme.orders") "// src/__packageDir__"
    = "// src/com/acme/orders"
  ∧ "// src/__packageDir__" ≠ "// src/com/acme/orders".
Proof.
  split_and!; [reflexivity | reflexivity | | reflexivity | done].
  intros template. eexists. split; reflexivity.
Qed.

(** C2, amended. For every text-classified template file the content
    written is made from the content read in three steps, in this order.
    Expression interpolation: a content with both [{{] and [}}] is given to
    the evaluator and what it renders goes on (the content itself when the
    evaluator throws or the pair is missing).  Then every [${packageName}] is
    replaced, when the context has a non-empty package name and only then.
    Then every [${projectName}] is replaced, when the context has a non-empty
    name and only then.  There is no package-directory substitution: a
    content without the pair and the two tokens is written as it is, whatever
    occurrences of [__packageDir__] it has. *)
Theorem content_rewriting (template : Template) (file content : string)
    (context : Context) (templateSource : TemplateSource) (w : World) :
  getFileContent templateSource file = Normal content →
  isTextFile file = true →
  ∃ w' rendered substituted,
    processFile template file context templateSource w = (Normal tt, w')
    ∧ (str_includes content "{{" && str_includes content "}}" = false → rendered = content)
    ∧ (∀ text, str_includes content "{{" && str_includes content "}}" = true →
         template content context = Normal text → rendered = text)
    ∧ (∀ msg, template content context = Throw msg → rendered = content)
    ∧ (∀ package, packageName context = Some package → package ≠ EmptyString →
         substituted = replaceAll "${packageName}" package rendered)
    ∧ (packageName context = None ∨ packageName context = Some EmptyString →
       substituted = rendered)
    ∧ (name context ≠ EmptyString →
       writtenData w' = Some (replaceAll "${projectName}" (name context) substituted))
    ∧ (name context = EmptyString → writtenData w' = Some substituted)
    ∧ (str_includes content "{{" && str_includes content "}}" = false →
       str_includes content "${packageName}" = false →
       str_includes content "${projectName}" = false →
       writtenData w' = Some content).
Proof.
  intros Hcontent Htext.
  destruct (processFile_run template file content context templateSource w Hcontent)
    as (w' & Hrun & _ & Hdata & _).
  rewrite Htext in Hdata.
  destruct (interpolated_cases template content context) as (Hplain & Hnormal & Hthrow).
  exists w', (interpolated template content context),
    (match packageNameOf context with
     | Some p => replaceAll "${packageName}" p (interpolated template content context)
     | None => interpolated template content context
     end).
  split_and!; [done | done | done | done | | | | |].
  - intros package Hpkg Hne. unfold packageNameOf. rewrite Hpkg. by destruct package.
  - intros [Hnone | Hempty]; unfold packageNameOf; [by rewrite Hnone | by rewrite Hempty].
  - intros Hname. rewrite Hdata. unfold replaceTokens. by destruct (name context).
  - intros Hname. rewrite Hdata. unfold replaceTokens. by rewrite Hname.
  - intros Hguard Hp Hn. rewrite Hdata, (Hplain Hguard). unfold replaceTokens.
    assert (∀ o : option string,
              match o with Some p => replaceAll "${packageName}" p content | None => content end
              = content) as ->.
    { intros [p |]; [by apply replaceAll_absent | done]. }
    destruct (truthy _); [by rewrite (replaceAll_absent _ _ _ Hn) | done].
Qed.

(** Contexts with one of the two fields only. *)
Definition nameOnly : Context :=
  {| name := "orders-api"; outputDir := "/tmp/orders-api"; packageName := None;
     templateName := "java-spring"; plugins := [] |}.

Definition packageOnly : Context :=
  {| name := EmptyString; outputDir := "/tmp/out"; packageName := Some "com.acme.orders";
     templateName := "java-spring"; plugins := [] |}.

Lemma content_rewriting_witness :
  (∃ w',
     processFile fieldTemplate "Main.java" ordersContext
       (sourceOf [("Main.java", "package ${packageName}; // {{name}}, ${projectName}")])
       world0 = (Normal tt, w')
     ∧ writtenData w' = Some "package com.acme.orders; // orders-api, orders-api")
  ∧ (∃ w',
       processFile fieldTemplate "Main.java" nameOnly
         (sourceOf [("Main.java", "package ${packageName}; // {{name}}, ${projectName}")])
         world0 = (Normal tt, w')
       ∧ writtenData w' = Some "package ${packageName}; // orders-api, orders-api")
  ∧ (∃ w',
       processFile fieldTemplate "Main.java" packageOnly
         (sourceOf [("Main.java", "package ${packageName}; // {{templateName}}, ${projectName}")])
         world0 = (Normal tt, w')
       ∧ writtenData w' = Some "package com.acme.orders; // java-spring, ${projectName}").
Proof.
  split_and!.
  - destruct (content_rewriting fieldTemplate "Main.java"
                "package ${packageName}; // {{name}}, ${projectName}" ordersContext
                (sourceOf [("Main.java", "package ${packageName}; // {{name}}, ${projectName}")])
                world0 eq_refl eq_refl)
      as (w' & rendered & substituted & Hrun & _ & Hform1 & _ & Hpkg & _ & Hname & _).
    exists w'. split; [done |].
    rewrite (Hname ltac:(done)), (Hpkg "com.acme.orders" eq_refl ltac:(done)).
    by rewrite (Hform1 "package ${packageName}; // orders-api, ${projectName}" eq_refl eq_refl).
  - destruct (content_rewriting fieldTemplate "Main.java"
                "package ${packageName}; // {{name}}, ${projectName}" nameOnly
                (sourceOf [("Main.java", "package ${packageName}; // {{name}}, ${projectName}")])
                world0 eq_refl eq_refl)
      as (w' & rendered & substituted & Hrun & _ & Hform1 & _ & _ & Hnone & Hname & _).
    exists w'. split; [done |].
    rewrite (Hname ltac:(done)), (Hnone (or_introl eq_refl)).
    by rewrite (Hform1 "package ${packageName}; // orders-api, ${projectName}" eq_refl eq_refl).
  - destruct (content_rewriting fieldTemplate "Main.java"
                "package ${packageName}; // {{templateName}}, ${projectName}" packageOnly
                (sourceOf [("Main.java",
                            "package ${packageName}; // {{templateName}}, ${projectName}")])
                world0 eq_refl eq_refl)
      as (w' & rendered & substituted & Hrun & _ & Hform1 & _ & Hpkg & _ & _ & Hempty & _).
    exists w'. split; [done |].
    rewrite (Hempty eq_refl), (Hpkg "com.acme.orders" eq_refl ltac:(done)).
    by rewrite (Hform1 "package ${packageName}; // java-spring, ${projectName}" eq_refl eq_refl).
Defined.




(** C8. When the evaluator throws on the content of a text file, a field
    that is absent or a malformed span being the cases at hand, the
    interpolation leaves the text as it was and logs a warning; the file is
    still written, from the original text, and the run goes on with the next
    file: a run over files the source holds completes, the warning in its
    log. *)
Theorem interpolation_failure_is_a_warning (template : Template) (file content msg : string)
    (context : Context) (templateSource : TemplateSource) (w : World) :
  getFileContent templateSource file = Normal content →
  isTextFile file = true →
  str_includes content "{{" && str_includes content "}}" = true →
  template content context = Throw msg →
  interpolate template file content context w
  = (content,
     logger Warn ("Failed to process template variables in " +:+ file +:+ ": " +:+ msg) w)
  ∧ ∃ w',
      processFile template file context templateSource w = (Normal tt, w')
      ∧ (Warn, "Failed to process template variables in " +:+ file +:+ ": " +:+ msg) ∈ logs w'
      ∧ writtenData w' = Some (replaceTokens context content)
      ∧ (∀ files,
           processFiles template (file :: files) context templateSource w
           = processFiles template files context templateSource w')
      ∧ (∀ files,
           getFiles templateSource = Normal files → file ∈ files →
           (∀ f, f ∈ files → ∃ c, getFileContent templateSource f = Normal c) →
           ∃ w'',
             processTemplate template context templateSource w = (Normal true, w'')
             ∧ (Warn, "Failed to process template variables in " +:+ file +:+ ": " +:+ msg)
                 ∈ logs w'').
Proof.
  intros Hcontent Htext Hguard Hthrow. split.
  { unfold interpolate. by rewrite Hguard, Hthrow. }
  destruct (processFile_run template file content context templateSource w Hcontent)
    as (w' & Hrun & _ & Hdata & _ & Hwarn).
  exists w'. split_and!; [done | by apply Hwarn | | |].
  - rewrite Hdata, Htext. unfold interpolated, interpolate. by rewrite Hguard, Hthrow.
  - intros files. simpl. by rewrite Hrun.
  - intros files Hfiles Hin Hall.
    destruct (processTemplate_run template files context templateSource w Hfiles Hall)
      as (w'' & Hrun' & Hwarn').
    exists w''. split; [done |]. by apply (Hwarn' file content msg).
Qed.

Lemma interpolation_failure_is_a_warning_witness :
  ∃ w',
    processFile fieldTemplate "README.md" ordersContext
      (sourceOf [("README.md", "# {{title}} for ${projectName}")]) world0 = (Normal tt, w')
    ∧ (Warn, "Failed to process template variables in README.md: title is not defined")
        ∈ logs w'
    ∧ writtenData w' = Some "# {{title}} for orders-api".
Proof.
  destruct (interpolation_failure_is_a_warning fieldTemplate "README.md"
              "# {{title}} for ${projectName}" "title is not defined" ordersContext
              (sourceOf [("README.md", "# {{title}} for ${projectName}")]) world0
              eq_refl eq_refl eq_refl eq_refl)
    as (_ & w' & Hrun & Hwarn & Hdata & _).
  exists w'. split_and!; [done | done |]. rewrite Hdata. reflexivity.
Defined.

(** *** The examples of the specification, run *)

Example content_example :
  replaceTokens ordersContext "server: ${projectName}" = "server: orders-api".
Proof. reflexivity. Qed.

Example binary_example :
  ∃ w', processFile fieldTemplate "logo.png" ordersContext
          (sourceOf [("logo.png", "{{name}} ${projectName}")]) world0 = (Normal tt, w')
        ∧ writtenData w' = Some "{{name}} ${projectName}".
Proof. eexists. split; reflexivity. Qed.

Example run_example :
  ∃ w', processTemplate fieldTemplate ordersContext
          (sourceOf [("src/__packageDir__/{{name}}.java", "package ${packageName};");
                     ("README.md", "# {{title}}")]) world0 = (Normal true, w')
        ∧ fsOps w' =
            [EnsureDir (Plain "/tmp/orders-api");
             EnsureDir (Dirname (Join "/tmp/orders-api" "src/com/acme/orders/orders-api.java"));
             WriteFile (Join "/tmp/orders-api" "src/com/acme/orders/orders-api.java")
               "package com.acme.orders;";
             EnsureDir (Dirname (Join "/tmp/orders-api" "README.md"));
             WriteFile (Join "/tmp/orders-api" "README.md") "# {{title}}"].
Proof. eexists. split; reflexivity. Qed.

End ProcessorFacts.

(** * Further properties of the code *)

(** ** Loops, continued *)

Section ForOfMore.
Context {E A S : Type}.
Implicit Types (body : A → S → option (completion E S)) (xs : list A).

Lemma forOf_app body xs ys s :
  forOf body (xs ++ ys) s =
  match forOf body xs s with
  | Some (Normal s') => forOf body ys s'
  | r => r
  end.
Proof.
  revert s. induction xs as [|x xs IH]; intros s; simpl; [done |].
  by destruct (body x s) as [[s1 | e] |].
Qed.

(** A loop whose iterations all leave the state as it is does so too. *)
Lemma forOf_fixed body xs s :
  (∀ x, x ∈ xs → body x s = Some (Normal s)) → forOf body xs s = Some (Normal s).
Proof.
  induction xs as [|x xs IH]; intros Hb; simpl; [done |].
  rewrite Hb by left. apply IH. intros y Hy. apply Hb. by right.
Qed.

(** In a loop that completes normally every iteration did. *)
Lemma forOf_each body xs s s' x :
  forOf body xs s = Some (Normal s') → x ∈ xs →
  ∃ s1 s2, body x s1 = Some (Normal s2).
Proof.
  revert s. induction xs as [|y xs IH]; intros s Hrun Hx; [by apply elem_of_nil in Hx |].
  simpl in Hrun. destruct (body y s) as [[s1 | e] |] eqn:Hy; try done.
  apply elem_of_cons in Hx as [-> | Hx]; [by eauto | by eapply IH].
Qed.
End ForOfMore.

(** ** The registry, continued *)

Module RegistryMore.
Import Registry RegistryFacts.

Section Traversal.
Context (this : PluginRegistry).

(** A visit marks its name, and unmarks nothing. *)
Lemma visit_marks fuel name st st' :
  visit fuel this name st = Some (Normal st') →
  visited st ⊆ visited st' ∧ name ∈ visited st'.
Proof.
  revert name st st'. induction fuel as [|fuel IH]; intros name st st'; [done |].
  rewrite visit_unfold. destruct (decide _) as [Hin | Hnew]; [by intros [= <-] |].
  cbv zeta. set (st1 := {| result := result st; visited := {[name]} ∪ visited st |}).
  destruct (hasPlugin this name); [| intros [= <-]; simpl; set_solver].
  destruct (getPlugin this name) as [plugin | e]; [| done].
  destruct (forOf _ _ st1) as [[st2 | e] |] eqn:Hloop; try done.
  assert (visited st1 ⊆ visited st2) as Hsub.
  { apply (forOf_ind _ (λ _ s, visited st1 ⊆ visited s)) in Hloop; [done | done |].
    intros _ dep s1 s2 _ Hs1 Hrun. destruct (IH _ _ _ Hrun). set_solver. }
  simpl in Hsub.
  destruct (negb _); intros [= <-]; simpl; set_solver.
Qed.

Lemma run_marks fuel names st st' :
  forOf (visit fuel this) names st = Some (Normal st') →
  visited st ⊆ visited st' ∧ ∀ n, n ∈ names → n ∈ visited st'.
Proof.
  intros Hrun.
  apply (forOf_ind _ (λ done s, visited st ⊆ visited s ∧ ∀ n, n ∈ done → n ∈ visited s))
    in Hrun; [done | by split; [| intros ? ?%elem_of_nil] |].
  intros done name s1 s2 _ [Hsub Hdone] Hvisit.
  destruct (visit_marks _ _ _ _ Hvisit) as [Hsub' Hname].
  split; [set_solver |].
  intros n [Hn | ->%list_elem_of_singleton]%elem_of_app; [| done]. set_solver.
Qed.

Lemma run_extends fuel names st st' :
  forOf (visit fuel this) names st = Some (Normal st') → extends this st st'.
Proof.
  intros Hrun.
  apply (forOf_ind _ (λ _ s, extends this st s) _ _ _ (extends_refl this st)) in Hrun;
    [done |].
  intros _ name s1 s2 _ Hs1 Hstep.
  eapply extends_trans; [done | by eapply visit_extends].
Qed.

Lemma run_returns names st :
  ∃ st', forOf (visit (S (size this)) this) names st = Some (Normal st').
Proof.
  destruct (forOf_total (visit (S (size this)) this) (λ _, True) names st)
    as (st' & Hrun & _); [done | | by eauto].
  intros name s1 _ _. destruct (visit_returns this name s1) as [s2 ?]. by eauto.
Qed.

(** Every name a visit appends is [name] or one of its direct or transitive
    dependencies. *)
Lemma visit_reach fuel name st st' :
  visit fuel this name st = Some (Normal st') →
  ∀ x, x ∈ result st' → x ∈ result st ∨ rtc (depends this) name x.
Proof.
  revert name st st'. induction fuel as [|fuel IH]; intros name st st'; [done |].
  rewrite visit_unfold. destruct (decide _) as [Hin | Hnew]; [intros [= <-]; by left |].
  cbv zeta. set (st1 := {| result := result st; visited := {[name]} ∪ visited st |}).
  destruct (hasPlugin this name) eqn:Hhas; [| intros [= <-]; by left].
  apply hasPlugin_true in Hhas as [plugin Hp]. rewrite (getPlugin_Some _ _ _ Hp).
  destruct (forOf _ _ st1) as [[st2 | e] |] eqn:Hloop; try done.
  assert (∀ x, x ∈ result st2 → x ∈ result st ∨ rtc (depends this) name x) as Hreach.
  { refine (forOf_ind _ (λ _ s, ∀ x, x ∈ result s →
                                 x ∈ result st ∨ rtc (depends this) name x)
                      _ _ _ _ _ Hloop); [by left |].
    intros _ dep s1 s2 Hdep Hs1 Hrun x Hx.
    destruct (IH _ _ _ Hrun x Hx) as [Hold | Hpath]; [by apply Hs1 |].
    right. eapply rtc_l; [| done]. by exists plugin. }
  destruct (negb _); intros [= <-]; [| done]. simpl.
  intros x [Hx | ->%list_elem_of_singleton]%elem_of_app; [by apply Hreach | by right].
Qed.

Lemma visit_closed fuel name st st' stack :
  visit fuel this name st = Some (Normal st') →
  closed this stack st → closed this stack st'.
Proof.
  revert name st st' stack. induction fuel as [|fuel IH]; intros name st st' stack; [done |].
  rewrite visit_unfold. destruct (decide _) as [Hin | Hnew]; [by intros [= <-] |].
  cbv zeta. set (st1 := {| result := result st; visited := {[name]} ∪ visited st |}).
  destruct (hasPlugin this name) eqn:Hhas.
  2:{ apply hasPlugin_false in Hhas. intros [= <-] [Hset Hcl]. split.
      - intros v [->%elem_of_singleton | Hv]%elem_of_union; [by right; left | by apply Hset].
      - intros n d Hn Hd. simpl. apply elem_of_union. right. by eapply Hcl. }
  apply hasPlugin_true in Hhas as [plugin Hp]. rewrite (getPlugin_Some _ _ _ Hp).
  destruct (forOf _ _ st1) as [[st2 | e] |] eqn:Hloop; try done.
  intros Hfinal [Hset Hcl].
  assert (closed this (name :: stack) st2
          ∧ ∀ d, d ∈ getDependencies plugin → d ∈ visited st2) as ([Hset2 Hcl2] & Hdeps).
  { apply (forOf_ind _ (λ done s, closed this (name :: stack) s
                                  ∧ ∀ d, d ∈ done → d ∈ visited s)) in Hloop; [done | |].
    - split; [split |]; [| | by intros ? ?%elem_of_nil].
      + intros v [->%elem_of_singleton | Hv]%elem_of_union; [right; right; left |].
        destruct (Hset _ Hv) as [? | [? | ?]]; [by left | by right; left |].
        right; right. by right.
      + intros n d Hn Hd. simpl. apply elem_of_union. right. by eapply Hcl.
    - intros done dep s1 s2 _ [Hc1 Hd1] Hrun.
      split; [by eapply IH |].
      destruct (visit_marks _ _ _ _ Hrun) as [Hsub Hdep].
      intros d [Hd | ->%list_elem_of_singleton]%elem_of_app; [| done]. set_solver. }
  assert (name ∈ visited st2) as Hname.
  { apply (forOf_ind _ (λ _ s, visited st1 ⊆ visited s)) in Hloop; [| done |].
    - apply Hloop. simpl. set_solver.
    - intros _ dep s1 s2 _ Hs1 Hrun. destruct (visit_marks _ _ _ _ Hrun). set_solver. }
  unfold includes in Hfinal.
  destruct (bool_decide_reflect (name ∈ result st2)) as [Hin | Hnotin]; simpl in Hfinal;
    injection Hfinal as <-.
  - split; [| done]. intros v Hv.
    destruct (Hset2 _ Hv) as [? | [? | [-> | ?]%elem_of_cons]]; auto.
  - split; simpl.
    + intros v Hv.
      destruct (Hset2 _ Hv) as [? | [? | [-> | ?]%elem_of_cons]]; auto.
      * left. apply elem_of_app. by left.
      * left. apply elem_of_app. right. by left.
    + intros n d [Hn | ->%list_elem_of_singleton]%elem_of_app Hd; [by eapply Hcl2 |].
      destruct Hd as (plugin' & Hp' & Hd). simplify_eq. by apply Hdeps.
Qed.

(** In a closed state with an empty stack, the registered names reachable
    from a visited name are in the result. *)
Lemma closed_reach st a n :
  closed this [] st → rtc (depends this) a n → a ∈ visited st → is_Some (this !! n) →
  n ∈ result st.
Proof.
  intros [Hset Hcl] Hpath. induction Hpath as [a | a b n Hab Hbn IH]; intros Ha Hn.
  - destruct (Hset _ Ha) as [? | [Hnone | ?%elem_of_nil]]; [done | | done].
    rewrite Hnone in Hn. by destruct Hn.
  - apply IH; [| done]. apply (Hcl a); [| done].
    destruct (Hset _ Ha) as [? | [Hnone | ?%elem_of_nil]]; [done | | done].
    destruct Hab as (p & Hp & _). congruence.
Qed.
End Traversal.

(** X1. After a successful [register] the plugin is found under its name by
    [getPlugin] and [hasPlugin], every other name is looked up as before, and
    the registry holds one plugin more. *)
Theorem register_then_getPlugin (this : PluginRegistry) (plugin : Plugin) :
  this !! getName plugin = None →
  ∃ this',
    register plugin this = (Normal tt, this')
    ∧ getPlugin this' (getName plugin) = Normal plugin
    ∧ hasPlugin this' (getName plugin) = true
    ∧ (∀ name, name ≠ getName plugin →
               getPlugin this' name = getPlugin this name
               ∧ hasPlugin this' name = hasPlugin this name)
    ∧ size (getAllPlugins this') = S (size (getAllPlugins this)).
Proof.
  intros Hfree. exists (<[getName plugin := plugin]> this).
  unfold register. rewrite (proj2 (hasPlugin_false _ _) Hfree).
  split_and!; [done | | | |].
  - apply getPlugin_Some. by rewrite lookup_insert_eq.
  - apply hasPlugin_true. rewrite lookup_insert_eq. by eexists.
  - intros name Hne. unfold getPlugin, hasPlugin. by rewrite lookup_insert_ne.
  - unfold getAllPlugins. by apply map_size_insert_None.
Qed.

Lemma register_then_getPlugin_witness :
  ∃ this',
    register (mkPlugin "C" ["A"]) chainAB = (Normal tt, this')
    ∧ getPlugin this' "C" = Normal (mkPlugin "C" ["A"])
    ∧ getPlugin this' "A" = getPlugin chainAB "A"
    ∧ size this' = 3.
Proof.
  destruct (register_then_getPlugin chainAB (mkPlugin "C" ["A"]) eq_refl)
    as (this' & Hreg & Hget & _ & Hother & Hsize).
  exists this'. split_and!; [done | done | by apply Hother | exact Hsize].
Defined.

(** X2. Requesting again names that were already requested changes
    nothing: the list returned is the same. *)
Theorem order_ignores_repeats (this : PluginRegistry) (pluginNames again : list string) :
  (∀ name, name ∈ again → name ∈ pluginNames) →
  getPluginsInDependencyOrder this (pluginNames ++ again)
  = getPluginsInDependencyOrder this pluginNames.
Proof.
  intros Hsub. destruct (order_run this pluginNames) as [st Hrun].
  unfold getPluginsInDependencyOrder. fold start. rewrite forOf_app, Hrun.
  rewrite forOf_fixed; [done |].
  intros name Hname. rewrite visit_unfold.
  destruct (run_marks _ _ _ _ _ Hrun) as [_ Hmarked].
  by rewrite decide_True by auto.
Qed.

Lemma order_ignores_repeats_witness :
  getPluginsInDependencyOrder chainAB (["A"; "X"] ++ ["X"; "A"; "A"])
  = getPluginsInDependencyOrder chainAB ["A"; "X"].
Proof.
  apply (order_ignores_repeats chainAB ["A"; "X"] ["X"; "A"; "A"]).
  intros name Hin. repeat (apply elem_of_cons in Hin as [-> | Hin]; [set_solver |]).
  by apply elem_of_nil in Hin.
Defined.

(** X3. Requesting more names at the end of a request only appends to the
    list returned: the names already ordered keep their places. *)
Theorem order_prefix_stable (this : PluginRegistry) (pluginNames more : list string) :
  ∃ order extra,
    getPluginsInDependencyOrder this pluginNames = Some (Normal order)
    ∧ getPluginsInDependencyOrder this (pluginNames ++ more) = Some (Normal (order ++ extra)).
Proof.
  destruct (order_run this pluginNames) as [st Hrun].
  destruct (run_returns this more st) as [st' Hmore].
  destruct (run_extends _ _ _ _ _ Hmore) as [(extra & Hres & _) _].
  exists (result st), extra. split; [by apply order_unfold |].
  unfold getPluginsInDependencyOrder. fold start.
  by rewrite forOf_app, Hrun, Hmore, Hres.
Qed.

Lemma run_names (this : PluginRegistry) (pluginNames : list string) (st : OrderState) :
  forOf (visit (S (size this)) this) pluginNames start = Some (Normal st) →
  ∀ name, name ∈ result st ↔
          is_Some (this !! name)
          ∧ ∃ requested, requested ∈ pluginNames ∧ rtc (depends this) requested name.
Proof.
  intros Hrun name. split.
  - intros Hin. split.
    + destruct (order_extends _ _ _ Hrun) as [(extra & Hres & Hreg) _].
      apply Hreg. simpl in Hres. by rewrite <- Hres.
    + revert name Hin.
      refine (forOf_ind _ (λ done s, ∀ x, x ∈ result s →
                             ∃ r, r ∈ done ∧ rtc (depends this) r x) _ _ _ _ _ Hrun).
      * by intros x ?%elem_of_nil.
      * intros done r s1 s2 _ Hs1 Hvisit x Hx.
        destruct (visit_reach _ _ _ _ _ Hvisit x Hx) as [Hold | Hpath].
        -- destruct (Hs1 _ Hold) as (r' & ? & ?). exists r'. set_solver.
        -- exists r. set_solver.
  - intros (Hreg & requested & Hreq & Hpath).
    apply (closed_reach this st requested); [| done | | done].
    + refine (forOf_ind _ (λ _ s, closed this [] s) _ _ _ _ _ Hrun).
      * split; [by intros v ?%elem_of_empty | by intros n d ?%elem_of_nil].
      * intros _ r s1 s2 _ Hs1 Hvisit. by eapply visit_closed.
    + by apply (run_marks _ _ _ _ _ Hrun).
Qed.
(** X4. On every graph, cyclic or not, the names of the list returned are
    exactly the registered names that are requested or are direct or transitive
    dependencies of a requested name. *)
Theorem order_is_reachable_set (this : PluginRegistry) (pluginNames : list string) :
  ∃ order,
    getPluginsInDependencyOrder this pluginNames = Some (Normal order)
    ∧ ∀ name, name ∈ order ↔
              is_Some (this !! name)
              ∧ ∃ requested, requested ∈ pluginNames ∧ rtc (depends this) requested name.
Proof.
  destruct (order_run this pluginNames) as [st Hrun].
  exists (result st). split; [by apply order_unfold | by apply run_names].
Qed.


Section Validation.
Context (this : PluginRegistry).

(** A check that passes bounds the length of the dependency paths that
    start at its plugin. *)
Lemma resolve_depth fuel name seen :
  resolveDependencies fuel this name seen = Some (Normal tt) →
  ∀ n y, nsteps (depends this) n name y → n < fuel.
Proof.
  revert name seen. induction fuel as [|fuel IH]; intros name seen; [done |].
  rewrite resolve_unfold. destruct (decide _) as [Hseen | Hnew]; [done |].
  destruct (this !! name) as [plugin |] eqn:Hp.
  2:{ by rewrite (getPlugin_None _ _ Hp). }
  rewrite (getPlugin_Some _ _ _ Hp). intros Hloop [|n] y Hsteps; [lia |].
  inversion Hsteps as [| ? ? dep ? (plugin' & Hp' & Hdep) Hrest]; subst.
  assert (plugin' = plugin) as -> by congruence.
  destruct (forOf_each _ _ _ _ dep Hloop Hdep) as ([] & [] & Hbody).
  destruct (negb _); [done |].
  specialize (IH _ _ Hbody _ _ Hrest). lia.
Qed.

(** From a plugin that reaches a cycle there are dependency paths of every
    length. *)
Lemma cycle_paths name x :
  rtc (depends this) name x → tc (depends this) x x →
  ∀ k, ∃ n y, k <= n ∧ nsteps (depends this) n name y.
Proof.
  intros Hreach Hcyc k.
  apply rtc_nsteps in Hreach as [j Hj]. apply tc_nsteps in Hcyc as (m & Hm & Hloop).
  assert (∀ i, nsteps (depends this) (i * m) x x) as Hround.
  { induction i as [|i IHi]; [constructor |]. simpl. by eapply nsteps_trans. }
  exists (j + k * m), x. split; [nia | by eapply nsteps_trans].
Qed.

(** What a passing check says of the reachable names, and back. *)
Lemma resolve_passes_reachable (name : string) :
  resolveDependencies0 this name = Some (Normal tt)
  ↔ ∀ dep, rtc (depends this) name dep →
           is_Some (this !! dep) ∧ ¬ tc (depends this) dep dep.
Proof.
  unfold resolveDependencies0. split.
  - intros Hpass dep Hreach. split.
    + destruct (this !! dep) eqn:Hdep; [by eexists |].
      by destruct (resolve_missing this _ _ Hreach Hdep _ _ Hpass).
    + intros Hcyc.
      destruct (cycle_paths _ _ Hreach Hcyc (S (size this))) as (n & y & Hn & Hsteps).
      pose proof (resolve_depth _ _ _ Hpass _ _ Hsteps). lia.
  - intros Hgood.
    destruct (resolve_total this (S (size this)) name ∅) as [r Hr].
    { pose proof (unseen_bound this ∅). lia. }
    destruct r as [[] | e]; [done |]. exfalso.
    pose proof (resolve_throws this _ _ _ ∅ _ Hr ltac:(set_solver)) as He.
    destruct e as [x | x | x | d p]; simpl in He.
    + done.
    + destruct He as [_ Hnone]. destruct (Hgood name) as [[? ?] _]; [done | congruence].
    + destruct He as [Hx [Hx' | Hcyc]]; [set_solver |]. by destruct (Hgood _ Hx) as [_ []].
    + destruct He as (Hp & Hd & Hnone).
      destruct (Hgood d) as [[? ?] _]; [| congruence].
      eapply rtc_r; done.
Qed.

(** X5. The check [resolveDependencies] passes for a plugin exactly when
    every name reachable from it through declared dependencies, the plugin
    itself included, is registered and is on no dependency cycle. *)
Theorem resolve_passes_iff (name : string) :
  resolveDependencies0 this name = Some (Normal tt)
  ↔ ∀ dep, rtc (depends this) name dep →
           is_Some (this !! dep) ∧ ¬ tc (depends this) dep dep.
Proof. apply resolve_passes_reachable. Qed.

(** The ordering invariant of a visit, on the part of the graph that is
    known to be free of cycles. *)
Lemma visit_order_on (good : string → Prop) fuel name st st' stack :
  (∀ a b, good a → depends this a b → good b) →
  (∀ a, good a → ¬ tc (depends this) a a) →
  good name →
  visit fuel this name st = Some (Normal st') →
  (∀ s, s ∈ stack → tc (depends this) s name) →
  settled this stack st → ordered this st →
  settled this stack st' ∧ ordered this st' ∧ (name ∈ result st' ∨ this !! name = None).
Proof.
  intros Hstep Hacyc. revert name st st' stack.
  induction fuel as [|fuel IH]; intros name st st' stack Hgood; [done |].
  rewrite visit_unfold. destruct (decide _) as [Hseen | Hnew].
  { intros [= <-] Hstack Hset Hord. split_and!; [done | done |].
    destruct (Hset _ Hseen) as [? | [? | Hin]]; [by left | by right |].
    destruct (Hacyc name Hgood). by apply Hstack. }
  cbv zeta. set (st1 := {| result := result st; visited := {[name]} ∪ visited st |}).
  destruct (hasPlugin this name) eqn:Hhas.
  2:{ apply hasPlugin_false in Hhas. intros [= <-] Hstack Hset Hord.
      split_and!; [| done | by right].
      intros v [->%elem_of_singleton | Hv]%elem_of_union; [by right; left |].
      by apply Hset. }
  apply hasPlugin_true in Hhas as [plugin Hp].
  rewrite (getPlugin_Some _ _ _ Hp).
  destruct (forOf _ _ st1) as [[st2 | e] |] eqn:Hloop; try done.
  intros Hfinal Hstack Hset Hord.
  assert (settled this (name :: stack) st2 ∧ ordered this st2 ∧
          ∀ d, d ∈ getDependencies plugin → d ∈ result st2 ∨ this !! d = None)
    as (Hset2 & Hord2 & Hdeps).
  { apply (forOf_ind _ (λ done s, settled this (name :: stack) s ∧ ordered this s ∧
                          ∀ d, d ∈ done → d ∈ result s ∨ this !! d = None))
      in Hloop; [done | |].
    - split_and!; [| done | by intros ? ?%elem_of_nil].
      intros v [->%elem_of_singleton | Hv]%elem_of_union; [right; right; left |].
      destruct (Hset _ Hv) as [? | [? | ?]]; [by left | by right; left |].
      right; right. by right.
    - intros done dep s1 s2 Hdep (Hs1 & Ho1 & Hd1) Hrun.
      assert (depends this name dep) as Hedge by (by exists plugin).
      destruct (IH _ _ _ (name :: stack) (Hstep _ _ Hgood Hedge) Hrun)
        as (Hs2 & Ho2 & Hr2); [| done | done |].
      + intros s [-> | Hs]%elem_of_cons; [by apply tc_once |].
        eapply tc_r; [by apply Hstack | done].
      + split_and!; [done | done |].
        intros d [Hd | ->%list_elem_of_singleton]%elem_of_app; [| done].
        destruct (Hd1 _ Hd) as [Hin | ?]; [left | by right].
        destruct (visit_extends _ _ _ _ _ Hrun) as [(extra & -> & _) _].
        apply elem_of_app. by left. }
  assert (∀ v, v ∈ visited st2 → v ≠ name → v ∈ result st2 ∨ this !! v = None ∨ v ∈ stack)
    as Hset2'.
  { intros v Hv Hne. destruct (Hset2 _ Hv) as [? | [? | [? | ?]%elem_of_cons]]; auto; done. }
  unfold includes in Hfinal.
  destruct (bool_decide_reflect (name ∈ result st2)) as [Hin | Hnotin]; simpl in Hfinal;
    injection Hfinal as <-.
  { split_and!; [| done | by left].
    intros v Hv. destruct (decide (v = name)) as [-> |]; [by left | by apply Hset2']. }
  split_and!; simpl.
  - intros v Hv. destruct (decide (v = name)) as [-> |].
    + left. apply elem_of_app. right. by left.
    + destruct (Hset2' _ Hv) as [? | [? | ?]]; auto. left. apply elem_of_app. by left.
  - intros n d [Hn | ->%list_elem_of_singleton]%elem_of_app Hnd Hd.
    + apply before_app_r. by apply Hord2.
    + destruct Hnd as (plugin' & Hp' & Hd'). simplify_eq.
      apply before_snoc. destruct (Hdeps _ Hd') as [? | Hnone]; [done |].
      rewrite Hnone in Hd. by destruct Hd.
  - left. apply elem_of_app. right. by left.
Qed.

(** X6. When [resolveDependencies] passes for every requested name, the
    list returned by [getPluginsInDependencyOrder] has no duplicates, holds
    exactly the requested names and their direct and transitive dependencies,
    and has every declared dependency of each of its names strictly before
    that name, although other parts of the registry may have cycles or
    missing dependencies. *)
Theorem validated_order (pluginNames : list string) :
  (∀ name, name ∈ pluginNames → resolveDependencies0 this name = Some (Normal tt)) →
  ∃ order,
    getPluginsInDependencyOrder this pluginNames = Some (Normal order)
    ∧ NoDup order
    ∧ (∀ name, name ∈ order ↔
               ∃ requested, requested ∈ pluginNames ∧ rtc (depends this) requested name)
    ∧ (∀ name dep, name ∈ order → depends this name dep → before dep name order).
Proof.
  intros Hvalid.
  set (good := λ n, ∃ r, r ∈ pluginNames ∧ rtc (depends this) r n).
  assert (∀ n, good n → is_Some (this !! n) ∧ ¬ tc (depends this) n n) as Hgood.
  { intros n (r & Hr & Hpath). by apply (proj1 (resolve_passes_reachable r) (Hvalid r Hr)). }
  destruct (order_run this pluginNames) as [st Hrun].
  exists (result st). split; [by apply order_unfold |].
  destruct (order_extends _ _ _ Hrun) as [_ Hnd].
  split; [apply Hnd; simpl; apply NoDup_nil_2 |].
  pose proof (run_names this _ _ Hrun) as Hnames.
  split.
  { intros name. rewrite Hnames. split; [by intros [_ ?] |].
    intros Hreach. split; [by apply Hgood | done]. }
  assert (ordered this st) as Hord.
  { refine (proj1 (proj2 (forOf_ind _ (λ done s, settled this [] s ∧ ordered this s ∧ True)
                            _ _ _ _ _ Hrun))).
    - split_and!; [by intros v ?%elem_of_empty | by intros n d ?%elem_of_nil | done].
    - intros done name s1 s2 Hname (Hs1 & Ho1 & _) Hvisit.
      assert (∀ a b, good a → depends this a b → good b) as Hstep.
      { intros a b (r & Hr & Hpath) Hab. exists r. split; [done | by eapply rtc_r]. }
      assert (good name) as Hgn by (by exists name).
      destruct (visit_order_on good _ _ _ _ [] Hstep (λ a Ha, proj2 (Hgood a Ha)) Hgn Hvisit)
        as (Hs2 & Ho2 & _); [by intros s ?%elem_of_nil | done | done | done]. }
  intros name dep Hin Hdep. apply Hord; [done | done |].
  apply Hgood. apply Hnames in Hin as (_ & r & Hr & Hpath).
  exists r. split; [done | by eapply rtc_r].
Qed.

End Validation.

Lemma validated_order_witness :
  ∃ order,
    getPluginsInDependencyOrder mixedRegistry ["A"] = Some (Normal order)
    ∧ NoDup order
    ∧ (∀ name, name ∈ order ↔
               ∃ requested, requested ∈ ["A"] ∧ rtc (depends mixedRegistry) requested name)
    ∧ (∀ name dep, name ∈ order → depends mixedRegistry name dep → before dep name order).
Proof.
  apply (validated_order mixedRegistry ["A"]).
  intros name ->%list_elem_of_singleton. reflexivity.
Defined.

End RegistryMore.

(** ** The template processor, continued *)

Module ProcessorMore.
Import Processor ProcessorFacts.

Section Agreement.
Context (template : Template) (context : Context) (templateSource : TemplateSource).

(** Over a file system that fulfils every call the functions of [Fallible]
    are those of [Processor]. *)
Lemma reliable_processFile file w :
  Fallible.processFile Fallible.reliable template file context templateSource w
  = processFile template file context templateSource w.
Proof.
  unfold Fallible.processFile, processFile, Fallible.fsCall, Fallible.reliable.
  destruct (getFileContent templateSource file) as [content | msg]; [| done].
  destruct (interpolate template ("path " +:+ file) file context w) as [outputPath w1].
  destruct (isTextFile file); [| done].
  by destruct (interpolate template file content context _) as [textContent w2].
Qed.

Lemma reliable_processFiles files w :
  Fallible.processFiles Fallible.reliable template files context templateSource w
  = processFiles template files context templateSource w.
Proof.
  revert w. induction files as [|file files IH]; intros w; [done |].
  cbn [Fallible.processFiles processFiles]. rewrite reliable_processFile.
  by destruct (processFile template file context templateSource w) as [[[] | msg] w1].
Qed.

Lemma reliable_processTemplate w :
  Fallible.processTemplate Fallible.reliable template context templateSource w
  = processTemplate template context templateSource w.
Proof.
  unfold Fallible.processTemplate, processTemplate, Fallible.fsCall, Fallible.reliable.
  destruct (getFiles templateSource) as [files | msg]; [| done].
  by rewrite reliable_processFiles.
Qed.
End Agreement.

Section Trace.
Context (disk : Fallible.Disk) (template : Template).

Lemma fulfilled_app history ops ops' :
  Fallible.fulfilled disk history (ops ++ ops')
  ↔ Fallible.fulfilled disk history ops ∧ Fallible.fulfilled disk (history ++ ops) ops'.
Proof.
  revert history. induction ops as [|op ops IH]; intros history; simpl.
  - rewrite app_nil_r. naive_solver.
  - rewrite IH, <- app_assoc. simpl. naive_solver.
Qed.

(** One call of [processFile], by the outcome of its two file-system
    calls. *)
Lemma processFile_calls file content context templateSource w :
  getFileContent templateSource file = Normal content →
  ∃ w' r,
    Fallible.processFile disk template file context templateSource w = (r, w')
    ∧ r =
      match disk (fsOps w) (EnsureDir (Dirname (destination template context file))) with
      | Some msg => Throw msg
      | None =>
          match disk (fsOps w ++ [EnsureDir (Dirname (destination template context file))])
                  (WriteFile (destination template context file)
                     (dataOf template context file content)) with
          | Some msg => Throw msg
          | None => Normal tt
          end
      end
    ∧ fsOps w' =
      match disk (fsOps w) (EnsureDir (Dirname (destination template context file))) with
      | Some msg => fsOps w
      | None =>
          match disk (fsOps w ++ [EnsureDir (Dirname (destination template context file))])
                  (WriteFile (destination template context file)
                     (dataOf template context file content)) with
          | Some msg => fsOps w ++ [EnsureDir (Dirname (destination template context file))]
          | None => fsOps w ++ fileOps template context file content
          end
      end
    ∧ ∀ msg,
        r = Throw msg →
        ∃ entries,
          logs w' = entries ++ [(Warn, "Failed to process file " +:+ file +:+ ": " +:+ msg)].
Proof.
  intros Hcontent. unfold Fallible.processFile. rewrite Hcontent.
  pose proof (interpolate_fst template ("path " +:+ file) file context w) as Hpath.
  pose proof (interpolate_fsOps template ("path " +:+ file) file context w) as Hops.
  destruct (interpolate template ("path " +:+ file) file context w) as [outputPath w1].
  simpl in Hpath, Hops. subst outputPath.
  fold (destination template context file).
  set (dir := EnsureDir (Dirname (destination template context file))).
  unfold Fallible.fsCall at 1. rewrite Hops.
  destruct (disk (fsOps w) dir) as [msg |] eqn:Hdir.
  { eexists _, _. split_and!; [done | done | done |]. intros msg' [= <-]. by eexists. }
  unfold fileOps, dataOf. fold dir. destruct (isTextFile file).
  - pose proof (interpolate_fst template file content context (fs dir w1)) as Hdata.
    pose proof (interpolate_fsOps template file content context (fs dir w1)) as Hops2.
    destruct (interpolate template file content context (fs dir w1)) as [textContent w2].
    simpl in Hdata, Hops2. subst textContent.
    unfold Fallible.fsCall. rewrite Hops2, Hops.
    destruct (disk (fsOps w ++ [dir]) _) as [msg |] eqn:Hwrite.
    + eexists _, _.
      split_and!; [done | done | cbn [logger fsOps]; by rewrite Hops2, Hops |].
      intros msg' [= <-]. by eexists.
    + eexists _, _.
      split_and!;
        [done | done | cbn [logger fs fsOps]; rewrite Hops2, Hops; by rewrite <- app_assoc |].
      by intros msg' [=].
  - unfold Fallible.fsCall. cbn [fs fsOps]. rewrite Hops.
    destruct (disk (fsOps w ++ [dir]) _) as [msg |] eqn:Hwrite.
    + eexists _, _. split_and!; [done | done | cbn [logger fs fsOps]; by rewrite Hops |].
      intros msg' [= <-]. by eexists.
    + eexists _, _.
      split_and!; [done | done | cbn [logger fs fsOps]; rewrite Hops; by rewrite <- app_assoc |].
      by intros msg' [=].
Qed.

Lemma processFile_ops file content context templateSource w :
  getFileContent templateSource file = Normal content →
  Fallible.fulfilled disk (fsOps w) (fileOps template context file content) →
  ∃ w',
    Fallible.processFile disk template file context templateSource w = (Normal tt, w')
    ∧ fsOps w' = fsOps w ++ fileOps template context file content.
Proof.
  intros Hcontent (Hdir & Hwrite & _).
  destruct (processFile_calls file content context templateSource w Hcontent)
    as (w' & r & Hrun & Hr & Hops & _).
  rewrite Hdir, Hwrite in Hr, Hops. subst r. by exists w'.
Qed.

Lemma processFiles_ops files contents context templateSource w :
  Forall2 (λ file content, getFileContent templateSource file = Normal content)
          files contents →
  Fallible.fulfilled disk (fsOps w) (concat (zip_with (fileOps template context) files contents)) →
  ∃ w',
    Fallible.processFiles disk template files context templateSource w = (Normal tt, w')
    ∧ fsOps w' = fsOps w ++ concat (zip_with (fileOps template context) files contents).
Proof.
  intros Hall. revert w.
  induction Hall as [| file content files contents Hfile _ IH]; intros w Hok.
  { exists w. split; [done |]. simpl. by rewrite app_nil_r. }
  cbn [zip_with concat] in Hok. apply fulfilled_app in Hok as [Hfirst Hrest].
  destruct (processFile_ops file content context templateSource w Hfile Hfirst)
    as (w1 & Hrun & Hops).
  destruct (IH w1) as (w2 & Hrun2 & Hops2); [by rewrite Hops |].
  exists w2. cbn [Fallible.processFiles]. rewrite Hrun. split; [done |].
  rewrite Hops2, Hops. cbn [zip_with concat]. by rewrite <- !app_assoc.
Qed.
End Trace.

(** X7. A file with an ASCII name that is not classified as text is written
    with exactly the content the source gave, whatever the evaluator and the
    context are. *)
Theorem binary_copied (template : Template) (file content : string)
    (context : Context) (templateSource : TemplateSource) (w : World) :
  Generate.isAscii file = true →
  getFileContent templateSource file = Normal content →
  isTextFile file = false →
  ∃ w',
    processFile template file context templateSource w = (Normal tt, w')
    ∧ writtenData w' = Some content.
Proof.
  intros _ Hcontent Hbinary.
  destruct (processFile_run template file content context templateSource w Hcontent)
    as (w' & Hrun & _ & Hdata & _).
  exists w'. split; [done |]. by rewrite Hdata, Hbinary.
Qed.

Lemma binary_copied_witness :
  ∃ w',
    processFile fieldTemplate "assets/logo.png" ordersContext
      (sourceOf [("assets/logo.png", "{{name}} ${projectName} __packageDir__")]) world0
    = (Normal tt, w')
    ∧ writtenData w' = Some "{{name}} ${projectName} __packageDir__".
Proof.
  exact (binary_copied fieldTemplate "assets/logo.png"
           "{{name}} ${projectName} __packageDir__" ordersContext
           (sourceOf [("assets/logo.png", "{{name}} ${projectName} __packageDir__")])
           world0 eq_refl eq_refl eq_refl).
Defined.

(** X8. A run over files with ASCII names that the source can read, and
    whose file-system calls are all fulfilled, returns [true] and makes these
    calls and no others: it creates the output directory, then, file by file
    in the order of the source, creates the directory of the destination and
    writes the file. *)
Theorem processTemplate_trace (disk : Fallible.Disk) (template : Template)
    (files contents : list string) (context : Context) (templateSource : TemplateSource)
    (w : World) :
  getFiles templateSource = Normal files →
  Forall2 (λ file content, getFileContent templateSource file = Normal content)
          files contents →
  Forall (λ file, Generate.isAscii file = true) files →
  Fallible.fulfilled disk (fsOps w)
    (EnsureDir (Plain (outputDir context))
     :: concat (zip_with (fileOps template context) files contents)) →
  ∃ w',
    Fallible.processTemplate disk template context templateSource w = (Normal true, w')
    ∧ fsOps w' = fsOps w ++ EnsureDir (Plain (outputDir context))
                 :: concat (zip_with (fileOps template context) files contents).
Proof.
  intros Hfiles Hall _ [Hout Hok]. unfold Fallible.processTemplate, Fallible.fsCall.
  cbn [logger fsOps]. rewrite Hout, Hfiles.
  match goal with |- context [Fallible.processFiles _ _ _ _ _ ?w0] =>
    destruct (processFiles_ops disk template files contents context templateSource w0 Hall)
      as (w1 & -> & Hops); [done |]
  end.
  eexists. split; [done |]. simpl. rewrite Hops. simpl. by rewrite <- app_assoc.
Qed.

Lemma processTemplate_trace_witness :
  ∃ w',
    Fallible.processTemplate Fallible.filesStay fieldTemplate ordersContext
      (sourceOf [("src/{{name}}.java", "// ${projectName}"); ("logo.png", "{{x}}")]) world0
    = (Normal true, w')
    ∧ fsOps w' =
        [EnsureDir (Plain "/tmp/orders-api");
         EnsureDir (Dirname (Join "/tmp/orders-api" "src/orders-api.java"));
         WriteFile (Join "/tmp/orders-api" "src/orders-api.java") "// orders-api";
         EnsureDir (Dirname (Join "/tmp/orders-api" "logo.png"));
         WriteFile (Join "/tmp/orders-api" "logo.png") "{{x}}"].
Proof.
  destruct (processTemplate_trace Fallible.filesStay fieldTemplate
              ["src/{{name}}.java"; "logo.png"]
              ["// ${projectName}"; "{{x}}"] ordersContext
              (sourceOf [("src/{{name}}.java", "// ${projectName}"); ("logo.png", "{{x}}")])
              world0 eq_refl)
    as (w' & Hrun & Hops).
  { repeat constructor. }
  { repeat constructor. }
  { vm_compute. repeat split. }
  exists w'. split; [done |]. rewrite Hops. reflexivity.
Defined.

(** X9. A run over files with ASCII names stops at the first file the
    source cannot read, when the file-system calls before it are fulfilled: it
    throws the error of that read, has written the files before it and none
    after it, and its log ends with the warning for the file and the error of
    the run. *)
Theorem processTemplate_aborts (disk : Fallible.Disk) (template : Template)
    (before after contents : list string)
    (bad msg : string) (context : Context) (templateSource : TemplateSource) (w : World) :
  getFiles templateSource = Normal (before ++ bad :: after) →
  Forall2 (λ file content, getFileContent templateSource file = Normal content)
          before contents →
  Forall (λ file, Generate.isAscii file = true) before →
  Fallible.fulfilled disk (fsOps w)
    (EnsureDir (Plain (outputDir context))
     :: concat (zip_with (fileOps template context) before contents)) →
  getFileContent templateSource bad = Throw msg →
  ∃ w' entries,
    Fallible.processTemplate disk template context templateSource w = (Throw msg, w')
    ∧ fsOps w' = fsOps w ++ EnsureDir (Plain (outputDir context))
                 :: concat (zip_with (fileOps template context) before contents)
    ∧ logs w' = entries ++ [(Warn, "Failed to process file " +:+ bad +:+ ": " +:+ msg);
                            (Error, "Template processing failed: " +:+ msg)].
Proof.
  intros Hfiles Hall _ [Hout Hok] Hbad.
  unfold Fallible.processTemplate, Fallible.fsCall. cbn [logger fsOps].
  rewrite Hout, Hfiles.
  match goal with |- context [Fallible.processFiles _ _ _ _ _ ?w0] => set (w1 := w0) end.
  assert (∀ w2,
            Fallible.fulfilled disk (fsOps w2)
              (concat (zip_with (fileOps template context) before contents)) →
            ∃ w3,
              Fallible.processFiles disk template (before ++ bad :: after) context
                templateSource w2 = (Throw msg, w3)
              ∧ fsOps w3 = fsOps w2 ++ concat (zip_with (fileOps template context) before contents)
              ∧ ∃ entries, logs w3 = entries ++ [(Warn, "Failed to process file " +:+ bad
                                                         +:+ ": " +:+ msg)]) as Hstop.
  { clear w1 Hfiles Hok Hout.
    induction Hall as [| file content files cs Hfile _ IH]; intros w2 Hok.
    - cbn [app Fallible.processFiles]. unfold Fallible.processFile. rewrite Hbad.
      eexists. split; [done |]. split; [simpl; by rewrite app_nil_r |].
      by exists (logs w2).
    - cbn [zip_with concat] in Hok. apply fulfilled_app in Hok as [Hfirst Hrest].
      destruct (processFile_ops disk template file content context templateSource w2
                  Hfile Hfirst) as (w3 & Hrun & Hops).
      destruct (IH w3) as (w4 & Hrun4 & Hops4 & Hlogs); [by rewrite Hops |].
      exists w4. cbn [app Fallible.processFiles]. rewrite Hrun. split_and!; [done | | done].
      rewrite Hops4, Hops. cbn [zip_with concat]. by rewrite <- !app_assoc. }
  destruct (Hstop w1) as (w3 & -> & Hops & entries & Hlogs); [done |].
  eexists. exists entries. split; [done |]. simpl. split.
  - rewrite Hops. subst w1. simpl. by rewrite <- app_assoc.
  - rewrite Hlogs. by rewrite <- app_assoc.
Qed.

Lemma processTemplate_aborts_witness :
  ∃ w' entries,
    Fallible.processTemplate Fallible.filesStay fieldTemplate ordersContext
      {| getFiles := Normal ["a.txt"; "gone.txt"; "b.txt"];
         getFileContent := λ file,
           if bool_decide (file = "gone.txt") then Throw "ENOENT" else Normal "text" |}
      world0 = (Throw "ENOENT", w')
    ∧ fsOps w' =
        [EnsureDir (Plain "/tmp/orders-api");
         EnsureDir (Dirname (Join "/tmp/orders-api" "a.txt"));
         WriteFile (Join "/tmp/orders-api" "a.txt") "text"]
    ∧ logs w' = entries ++ [(Warn, "Failed to process file gone.txt: ENOENT");
                            (Error, "Template processing failed: ENOENT")].
Proof.
  destruct (processTemplate_aborts Fallible.filesStay fieldTemplate ["a.txt"] ["b.txt"]
              ["text"] "gone.txt" "ENOENT" ordersContext
              {| getFiles := Normal ["a.txt"; "gone.txt"; "b.txt"];
                 getFileContent := λ file,
                   if bool_decide (file = "gone.txt") then Throw "ENOENT" else Normal "text" |}
              world0 eq_refl)
    as (w' & entries & Hrun & Hops & Hlogs).
  { repeat constructor. }
  { repeat constructor. }
  { vm_compute. repeat split. }
  { reflexivity. }
  exists w', entries. split_and!; [done | | done]. rewrite Hops. reflexivity.
Defined.

(** A rejected file-system call of [processFile] is logged as a warning and
    thrown again: the calls before it were made and none after it, and the
    loop of [processTemplate] stops there.  The file has an ASCII name. *)
Theorem rejected_call_aborts (disk : Fallible.Disk) (template : Template)
    (file content msg : string) (context : Context) (templateSource : TemplateSource)
    (w : World) (made later : list FsOp) (op : FsOp) :
  Generate.isAscii file = true →
  getFileContent templateSource file = Normal content →
  fileOps template context file content = made ++ op :: later →
  Fallible.fulfilled disk (fsOps w) made →
  disk (fsOps w ++ made) op = Some msg →
  ∃ w' entries,
    Fallible.processFile disk template file context templateSource w = (Throw msg, w')
    ∧ fsOps w' = fsOps w ++ made
    ∧ logs w' = entries ++ [(Warn, "Failed to process file " +:+ file +:+ ": " +:+ msg)]
    ∧ ∀ files,
        Fallible.processFiles disk template (file :: files) context templateSource w
        = (Throw msg, w').
Proof.
  intros _ Hcontent Hsplit Hmade Hop.
  destruct (processFile_calls disk template file content context templateSource w Hcontent)
    as (w' & r & Hrun & Hr & Hops & Hlogs).
  unfold fileOps in Hsplit.
  destruct made as [| first [| second made]]; simplify_eq/=.
  - rewrite app_nil_r in Hop. rewrite Hop in Hlogs, Hops, Hrun.
    destruct (Hlogs msg eq_refl) as [entries Hentries].
    exists w', entries. split_and!; [done | by rewrite app_nil_r | done |].
    intros files. by rewrite Hrun.
  - destruct Hmade as [Hdir _]. rewrite Hdir, Hop in Hlogs, Hops, Hrun.
    destruct (Hlogs msg eq_refl) as [entries Hentries].
    exists w', entries. split_and!; [done | done | done |].
    intros files. by rewrite Hrun.
  - by destruct made.
Qed.

Lemma rejected_call_aborts_witness :
  ∃ w' entries,
    Fallible.processFile Fallible.filesStay fieldTemplate "{{name}}/x.txt" ordersContext
      (sourceOf [("orders-api", "x"); ("{{name}}/x.txt", "y")])
      {| fsOps := [WriteFile (Join "/tmp/orders-api" "orders-api") "x"]; logs := [] |}
    = (Throw "ENOTDIR: not a directory", w')
    ∧ fsOps w' = [WriteFile (Join "/tmp/orders-api" "orders-api") "x"]
    ∧ logs w' = entries ++ [(Warn, "Failed to process file {{name}}/x.txt: "
                                   +:+ "ENOTDIR: not a directory")].
Proof.
  destruct (rejected_call_aborts Fallible.filesStay fieldTemplate "{{name}}/x.txt" "y"
              "ENOTDIR: not a directory" ordersContext
              (sourceOf [("orders-api", "x"); ("{{name}}/x.txt", "y")])
              {| fsOps := [WriteFile (Join "/tmp/orders-api" "orders-api") "x"]; logs := [] |}
              [] [WriteFile (Join "/tmp/orders-api" "orders-api/x.txt") "y"]
              (EnsureDir (Dirname (Join "/tmp/orders-api" "orders-api/x.txt")))
              eq_refl eq_refl eq_refl I eq_refl)
    as (w' & entries & Hrun & Hops & Hlogs & _).
  exists w', entries. split_and!; [done | | done]. rewrite Hops. reflexivity.
Defined.

(** *** Substitution *)

(** X10. When the replacement has no [$], the substitution of a token
    replaces its first occurrence verbatim and goes on in the text after that
    occurrence; a text without the token is left as it is.  This is the
    substitution of [${packageName}] and of [${projectName}] for names
    without [$]. *)
Theorem token_substitution_verbatim (token value content : string) :
  token ≠ EmptyString →
  str_includes value "$" = false →
  replaceAll token value content =
  match splitAt token content with
  | Some (before, after) => before +:+ value +:+ replaceAll token value after
  | None => content
  end.
Proof. intros Htoken Hplain. by apply replaceAll_unfold. Qed.

Lemma token_substitution_verbatim_witness :
  replaceAll "${projectName}" "orders-api" "a ${projectName} b ${projectName}"
  = "a " +:+ "orders-api" +:+ replaceAll "${projectName}" "orders-api" " b ${projectName}".
Proof.
  exact (token_substitution_verbatim "${projectName}" "orders-api"
           "a ${projectName} b ${projectName}" ltac:(done) eq_refl).
Defined.

(** X11. In a path only the first [__packageDir__] is replaced: the text
    before it and everything after it, further occurrences included, are
    kept, and between them stands the package name with each [.] turned into
    [/] (for a package name without [$]); a path without the token is kept. *)
Theorem packageDir_first_only (context : Context) (package path : string) :
  packageName context = Some package → package ≠ EmptyString →
  str_includes package "$" = false →
  replacePackageDir context path =
  match splitAt "__packageDir__" path with
  | Some (before, after) => before +:+ mapChars dotToSlash package +:+ after
  | None => path
  end.
Proof. apply replacePackageDir_split. Qed.

Lemma packageDir_first_only_witness :
  replacePackageDir ordersContext "src/__packageDir__/gen/__packageDir__/Main.java"
  = "src/com/acme/orders/gen/__packageDir__/Main.java".
Proof.
  rewrite (packageDir_first_only ordersContext "com.acme.orders"
             "src/__packageDir__/gen/__packageDir__/Main.java" eq_refl ltac:(done) eq_refl).
  reflexivity.
Defined.

(** *** Classification *)

Section Classification.

Lemma lowerChar_slash c : isSlash (lowerChar c) = isSlash c.
Proof. destruct c as [[] [] [] [] [] [] [] []]; reflexivity. Qed.

Lemma lowerChar_dot c : (lowerChar c =? ".")%char = (c =? ".")%char.
Proof. destruct c as [[] [] [] [] [] [] [] []]; reflexivity. Qed.

Lemma lowerChar_idemp c : lowerChar (lowerChar c) = lowerChar c.
Proof. destruct c as [[] [] [] [] [] [] [] []]; reflexivity. Qed.

Lemma toLowerCase_idemp s : toLowerCase (toLowerCase s) = toLowerCase s.
Proof. induction s as [|c s IH]; simpl; [done |]. by rewrite lowerChar_idemp, IH. Qed.

Lemma list_of_toLowerCase s :
  list_ascii_of_string (toLowerCase s) = List.map lowerChar (list_ascii_of_string s).
Proof. induction s as [|c s IH]; simpl; [done |]. by rewrite IH. Qed.

Lemma toLowerCase_of_list l :
  toLowerCase (string_of_list_ascii l) = string_of_list_ascii (List.map lowerChar l).
Proof. induction l as [|c l IH]; simpl; [done |]. by rewrite IH. Qed.

Lemma dropWhile_map (q : ascii → bool) l :
  (∀ c, q (lowerChar c) = q c) →
  dropWhile q (List.map lowerChar l) = List.map lowerChar (dropWhile q l).
Proof.
  intros Hq. induction l as [|c l IH]; simpl; [done |].
  rewrite Hq. by destruct (q c).
Qed.

Lemma takeWhile_map (q : ascii → bool) l :
  (∀ c, q (lowerChar c) = q c) →
  takeWhile q (List.map lowerChar l) = List.map lowerChar (takeWhile q l).
Proof.
  intros Hq. induction l as [|c l IH]; simpl; [done |].
  rewrite Hq. destruct (q c); simpl; [by rewrite IH | done].
Qed.

Lemma lastPortionRev_lower p :
  lastPortionRev (toLowerCase p) = List.map lowerChar (lastPortionRev p).
Proof.
  unfold lastPortionRev. rewrite list_of_toLowerCase, <- map_rev.
  rewrite dropWhile_map by apply lowerChar_slash.
  apply takeWhile_map. intros c. by rewrite lowerChar_slash.
Qed.

Lemma basename_lower p : basename (toLowerCase p) = toLowerCase (basename p).
Proof.
  unfold basename. by rewrite lastPortionRev_lower, toLowerCase_of_list, map_rev.
Qed.

Lemma map_lower_dots r :
  List.map lowerChar r = ["."; "."]%char ↔ r = ["."; "."]%char.
Proof.
  assert (∀ c, lowerChar c = "."%char ↔ c = "."%char) as Hdot.
  { intros c. pose proof (lowerChar_dot c) as H.
    destruct (Ascii.eqb_spec (lowerChar c) "."), (Ascii.eqb_spec c "."); naive_solver. }
  destruct r as [|a [|b [|c r]]]; simpl; split; try done.
  - intros [= Ha Hb]. apply (proj1 (Hdot _)) in Ha. apply (proj1 (Hdot _)) in Hb. by subst.
  - by intros [= -> ->].
Qed.

Lemma extname_lower p : extname (toLowerCase p) = toLowerCase (extname p).
Proof.
  unfold extname. rewrite lastPortionRev_lower.
  set (r := lastPortionRev p).
  assert (∀ c, negb (lowerChar c =? ".")%char = negb (c =? ".")%char) as Hq.
  { intros c. by rewrite lowerChar_dot. }
  rewrite (dropWhile_map _ _ Hq), (takeWhile_map _ _ Hq).
  destruct (dropWhile _ r) as [|d [|e rest]]; simpl; [done | done |].
  rewrite (bool_decide_ext _ _ (map_lower_dots r)).
  destruct (bool_decide (r = ["."; "."]%char)); [done |].
  cbn [toLowerCase]. rewrite toLowerCase_of_list, <- map_rev. reflexivity.
Qed.

Lemma list_of_append a b :
  list_ascii_of_string (a +:+ b) = list_ascii_of_string a ++ list_ascii_of_string b.
Proof. induction a as [|c a IH]; simpl; [done |]. by rewrite IH. Qed.

Lemma no_slash_chars file :
  str_includes file "/" = false →
  Forall (λ c, isSlash c = false) (list_ascii_of_string file).
Proof.
  induction file as [|c file IH]; cbn [list_ascii_of_string]; [constructor |].
  rewrite includes_char_cons. destruct (ascii_dec "/" c) as [| Hne]; [done |].
  intros H. constructor; [| by apply IH].
  unfold isSlash. by destruct (Ascii.eqb_spec c "/").
Qed.

Lemma takeWhile_all (q : ascii → bool) l rest c :
  Forall (λ c, q c = true) l → q c = false → takeWhile q (l ++ c :: rest) = l.
Proof.
  intros Hall Hc. induction Hall as [| d l Hd _ IH]; simpl; [by rewrite Hc |].
  by rewrite Hd, IH.
Qed.

Lemma takeWhile_id (q : ascii → bool) l :
  Forall (λ c, q c = true) l → takeWhile q l = l.
Proof. induction 1 as [| d l Hd _ IH]; simpl; [done |]. by rewrite Hd, IH. Qed.

Lemma lastPortionRev_join dir file :
  file ≠ EmptyString → str_includes file "/" = false →
  lastPortionRev (dir +:+ "/" +:+ file) = lastPortionRev file.
Proof.
  intros Hne Hfile. apply no_slash_chars in Hfile.
  unfold lastPortionRev. rewrite !list_of_append. simpl list_ascii_of_string.
  rewrite rev_app_distr. simpl rev at 1. rewrite <- !app_assoc. simpl app at 2.
  set (lf := list_ascii_of_string file) in *.
  assert (Forall (λ c, isSlash c = false) (rev lf)) as Hrev.
  { by apply List.Forall_rev. }
  assert (rev lf ≠ []) as Hne'.
  { destruct file; [done |]. subst lf. simpl. by intros [_ ?]%app_eq_nil. }
  destruct (rev lf) as [|c l] eqn:Hl; [done |].
  inversion Hrev as [| ? ? Hc Hl']; subst.
  simpl. rewrite Hc. simpl. f_equal.
  assert (Forall (λ c, negb (isSlash c) = true) l) as Hnot.
  { eapply Forall_impl; [done |]. intros d Hd. simpl in Hd. by rewrite Hd. }
  rewrite (takeWhile_all _ l _ "/"%char Hnot eq_refl). by rewrite takeWhile_id.
Qed.
End Classification.

(** X12. The classification of a file with an ASCII name as text looks at
    its last path portion only and ignores the case of its letters: the file
    is classified like the same file in any directory, and like its name in
    lower case. *)
Theorem isTextFile_name_only (dir file : string) :
  Generate.isAscii file = true →
  file ≠ EmptyString → str_includes file "/" = false →
  isTextFile (dir +:+ "/" +:+ file) = isTextFile file
  ∧ isTextFile (toLowerCase file) = isTextFile file.
Proof.
  intros _ Hne Hfile. split.
  - unfold isTextFile, extname, basename. by rewrite lastPortionRev_join.
  - unfold isTextFile. by rewrite extname_lower, basename_lower, !toLowerCase_idemp.
Qed.

Lemma isTextFile_name_only_witness :
  isTextFile ("docs/Guides" +:+ "/" +:+ "ReadMe.MD") = isTextFile "ReadMe.MD"
  ∧ isTextFile (toLowerCase "ReadMe.MD") = isTextFile "ReadMe.MD".
Proof.
  exact (isTextFile_name_only "docs/Guides" "ReadMe.MD" eq_refl ltac:(done) eq_refl).
Defined.

End ProcessorMore.

(** ** The generate command *)

Module GenerateFacts.
Import Registry Processor Generate RegistryFacts ProcessorFacts ProcessorMore.

Section Strings.
Implicit Types (q : ascii → bool) (s : string).

Lemma allChars_impl q q' s :
  (∀ c, q c = true → q' c = true) → allChars q s = true → allChars q' s = true.
Proof.
  intros Hq. induction s as [|c s IH]; simpl; [done |].
  intros [Hc Hs]%andb_prop. by rewrite (Hq _ Hc), IH.
Qed.

Lemma allChars_app q a b : allChars q (a +:+ b) = allChars q a && allChars q b.
Proof. induction a as [|c a IH]; simpl; [done |]. by rewrite IH, andb_assoc. Qed.

Lemma allChars_dropStart q q' s : allChars q s = true → allChars q (dropStart q' s) = true.
Proof.
  induction s as [|c s IH]; simpl; [done |]. intros H.
  destruct (q' c); [| done]. apply andb_prop in H as [_ H]. by apply IH.
Qed.

Lemma allChars_dropEnd q q' s : allChars q s = true → allChars q (dropEnd q' s) = true.
Proof.
  induction s as [|c s IH]; simpl; [done |]. intros [Hc Hs]%andb_prop.
  specialize (IH Hs). destruct (dropEnd q' s) as [|d t].
  - destruct (q' c); simpl; [done | by rewrite Hc].
  - change (allChars q (String c (String d t)) = true). simpl. simpl in IH. by rewrite Hc, IH.
Qed.

Lemma allChars_excludes q s c :
  allChars q s = true → q c = false → str_includes s (String c EmptyString) = false.
Proof.
  intros Hall Hc. induction s as [|d s IH]; [done |].
  simpl in Hall. apply andb_prop in Hall as [Hd Hs].
  rewrite includes_char_cons. destruct (ascii_dec c d) as [-> |]; [congruence | by apply IH].
Qed.

(** The head of a string survives [dropEnd] when anything does. *)
Lemma dropEnd_head q c s :
  dropEnd q (String c s) = EmptyString ∨ ∃ t, dropEnd q (String c s) = String c t.
Proof.
  simpl. destruct (dropEnd q s) as [|d t]; [| by eauto].
  destruct (q c); by eauto.
Qed.

Lemma dropEnd_keeps q c s : q c = false → ∃ t, dropEnd q (String c s) = String c t.
Proof.
  intros Hc. simpl. destruct (dropEnd q s) as [|d t]; [| by eauto].
  rewrite Hc. by eauto.
Qed.

Lemma dropStart_idemp q s : dropStart q (dropStart q s) = dropStart q s.
Proof.
  induction s as [|c s IH]; simpl; [done |].
  destruct (q c) eqn:Hc; [done |]. simpl. by rewrite Hc.
Qed.

Lemma dropEnd_idemp q s : dropEnd q (dropEnd q s) = dropEnd q s.
Proof.
  induction s as [|c s IH]; [done |]. cbn [dropEnd].
  destruct (dropEnd q s) as [|d t] eqn:Ht.
  - destruct (q c) eqn:Hc; [done |]. simpl. by rewrite Hc.
  - cbn [dropEnd]. cbn [dropEnd] in IH. by rewrite IH.
Qed.

Lemma dropStart_head q s :
  dropStart q s = EmptyString ∨ ∃ c t, dropStart q s = String c t ∧ q c = false.
Proof.
  induction s as [|c s IH]; simpl; [by left |].
  destruct (q c) eqn:Hc; [done |]. right. by eauto.
Qed.

(** Trimming both ends is idempotent. *)
Lemma trim_both_idemp q s :
  dropEnd q (dropStart q (dropEnd q (dropStart q s))) = dropEnd q (dropStart q s).
Proof.
  destruct (dropStart_head q s) as [-> | (c & t & -> & Hc)]; [done |].
  destruct (dropEnd_keeps q c t Hc) as [t' Ht']. rewrite Ht'.
  cbn [dropStart]. rewrite Hc, <- Ht'. apply dropEnd_idemp.
Qed.
End Strings.

(** *** getDefaultPackage *)

Section DefaultPackage.

Lemma startsWithDot_prefix s : String.prefix "." s = startsWithDot s.
Proof.
  destruct s as [|c s]; [done |]. cbn [startsWithDot]. unfold isDot.
  change (String.prefix "." (String c s))
    with (if ascii_dec "." c then String.prefix EmptyString s else false).
  destruct (ascii_dec "." c) as [<- | Hne]; [by rewrite prefix_empty |].
  by destruct (Ascii.eqb_spec c ".") as [-> |].
Qed.

Lemma hasDoubleDot_includes s : str_includes s ".." = hasDoubleDot s.
Proof.
  induction s as [|c s IH]; [done |].
  rewrite str_includes_cons. cbn [hasDoubleDot]. rewrite <- IH.
  change (String.prefix ".." (String c s))
    with (if ascii_dec "." c then String.prefix "." s else false).
  rewrite startsWithDot_prefix. unfold isDot.
  destruct (ascii_dec "." c) as [<- | Hne]; [by destruct (startsWithDot s) |].
  by destruct (Ascii.eqb_spec c ".") as [-> |].
Qed.

Lemma sanitized_chars s : allChars isPackageChar (mapChars sanitizeChar s) = true.
Proof.
  induction s as [|c s IH]; simpl; [done |]. rewrite IH, andb_true_r.
  unfold isPackageChar, sanitizeChar. by destruct (isLowerAlnum c) eqn:Hc; [rewrite Hc |].
Qed.

Lemma collapseDots_cons c s :
  collapseDots (String c s) =
  if isDot c && startsWithDot s then collapseDots s else String c (collapseDots s).
Proof. reflexivity. Qed.

Lemma allChars_collapseDots q s : allChars q s = true → allChars q (collapseDots s) = true.
Proof.
  induction s as [|c s IH]; [done |]. rewrite collapseDots_cons. cbn [allChars].
  intros [Hc Hs]%andb_prop. destruct (_ && _); [by apply IH |].
  cbn [allChars]. by rewrite Hc, IH.
Qed.

Lemma startsWithDot_collapseDots s : startsWithDot (collapseDots s) = startsWithDot s.
Proof.
  induction s as [|c s IH]; [done |]. rewrite collapseDots_cons.
  destruct (isDot c) eqn:Hc, (startsWithDot s) eqn:Hs; cbn [andb startsWithDot];
    congruence.
Qed.

Lemma collapseDots_single s : hasDoubleDot (collapseDots s) = false.
Proof.
  induction s as [|c s IH]; [done |]. rewrite collapseDots_cons.
  destruct (isDot c && startsWithDot s) eqn:Hdrop; [done |].
  cbn [hasDoubleDot]. by rewrite IH, startsWithDot_collapseDots, Hdrop.
Qed.

Lemma hasDoubleDot_dropStart q s :
  hasDoubleDot s = false → hasDoubleDot (dropStart q s) = false.
Proof.
  induction s as [|c s IH]; simpl; [done |]. intros H.
  destruct (q c); [| done]. apply orb_false_elim in H as [_ H]. by apply IH.
Qed.

Lemma startsWithDot_dropEnd q s :
  startsWithDot s = false → startsWithDot (dropEnd q s) = false.
Proof.
  destruct s as [|c s]; [done |]. intros Hc.
  by destruct (dropEnd_head q c s) as [-> | [t ->]].
Qed.

Lemma hasDoubleDot_dropEnd q s :
  hasDoubleDot s = false → hasDoubleDot (dropEnd q s) = false.
Proof.
  induction s as [|c s IH]; [done |]. cbn [hasDoubleDot].
  intros [Hc Hs]%orb_false_elim. specialize (IH Hs). cbn [dropEnd].
  destruct (dropEnd q s) as [|d t] eqn:Ht.
  - destruct (q c); [done |]. simpl. by rewrite andb_false_r.
  - cbn [hasDoubleDot]. cbn [hasDoubleDot] in IH. rewrite IH, orb_false_r.
    destruct (isDot c); [| done]. simpl in *.
    destruct s as [|e s']; [done |].
    destruct (dropEnd_head q e s') as [Hnil | [t' Ht']]; [congruence |].
    rewrite Ht' in Ht. injection Ht as <- _. done.
Qed.

Lemma startsWithDot_dropStart s : startsWithDot (dropStart isDot s) = false.
Proof. by destruct (dropStart_head isDot s) as [-> | (c & t & -> & Hc)]. Qed.

(** X13. The default package name of a project is made of lower-case
    letters, digits and dots only, has at least one dot, no two dots in a row
    and no dot at its start, and so no [$]. *)
Theorem getDefaultPackage_shape (name : string) :
  isAscii name = true →
  allChars isPackageChar (getDefaultPackage name) = true
  ∧ str_includes (getDefaultPackage name) "." = true
  ∧ str_includes (getDefaultPackage name) ".." = false
  ∧ String.prefix "." (getDefaultPackage name) = false
  ∧ str_includes (getDefaultPackage name) "$" = false.
Proof.
  intros _. unfold getDefaultPackage.
  set (trimmed := dropEnd isDot (dropStart isDot
                    (collapseDots (mapChars sanitizeChar (toLowerCase name))))).
  assert (allChars isPackageChar trimmed = true) as Hchars.
  { by apply allChars_dropEnd, allChars_dropStart, allChars_collapseDots, sanitized_chars. }
  assert (hasDoubleDot trimmed = false) as Hdouble.
  { by apply hasDoubleDot_dropEnd, hasDoubleDot_dropStart, collapseDots_single. }
  assert (startsWithDot trimmed = false) as Hstart.
  { apply startsWithDot_dropEnd, startsWithDot_dropStart. }
  assert (∀ p, allChars isPackageChar p = true → str_includes p "$" = false) as Hdollar.
  { intros p Hp. by apply (allChars_excludes isPackageChar). }
  clearbody trimmed. rewrite !hasDoubleDot_includes, !startsWithDot_prefix.
  destruct (str_includes trimmed ".") eqn:Hdot.
  - split_and!; [done | done | done | done | by apply Hdollar].
  - assert (allChars isPackageChar ("com.example." +:+ trimmed) = true) as Hall.
    { by rewrite allChars_app, Hchars. }
    split_and!; [done | reflexivity | | reflexivity | by apply Hdollar].
    simpl. change (EmptyString +:+ trimmed) with trimmed. by rewrite Hstart, Hdouble.
Qed.

Lemma getDefaultPackage_shape_witness :
  allChars isPackageChar (getDefaultPackage "--My__App..v2--") = true
  ∧ str_includes (getDefaultPackage "--My__App..v2--") "." = true
  ∧ str_includes (getDefaultPackage "--My__App..v2--") ".." = false
  ∧ String.prefix "." (getDefaultPackage "--My__App..v2--") = false
  ∧ str_includes (getDefaultPackage "--My__App..v2--") "$" = false.
Proof. exact (getDefaultPackage_shape "--My__App..v2--" eq_refl). Defined.

Lemma lower_alnum_fixed c : isLowerAlnum c = true → lowerChar c = c ∧ isDot c = false.
Proof. destruct c as [[] [] [] [] [] [] [] []]; by intros. Qed.

(** X14. A project name made of lower-case letters and digits only gets the
    package [com.example.] followed by the name; the empty name gets
    [com.example.], which ends in a dot. *)
Theorem getDefaultPackage_simple (name : string) :
  allChars isLowerAlnum name = true →
  getDefaultPackage name = "com.example." +:+ name.
Proof.
  intros Hname. unfold getDefaultPackage.
  assert (toLowerCase name = name) as ->.
  { induction name as [|c s IH]; [done |]. simpl in *.
    apply andb_prop in Hname as [Hc Hs].
    by rewrite (proj1 (lower_alnum_fixed c Hc)), IH. }
  assert (mapChars sanitizeChar name = name) as ->.
  { induction name as [|c s IH]; [done |]. simpl in *.
    apply andb_prop in Hname as [Hc Hs]. unfold sanitizeChar at 1. by rewrite Hc, IH. }
  assert (allChars (λ c, negb (isDot c)) name = true) as Hnodot.
  { eapply allChars_impl; [| done]. intros c Hc.
    by rewrite (proj2 (lower_alnum_fixed c Hc)). }
  assert (collapseDots name = name) as ->.
  { clear Hname. induction name as [|c s IH]; [done |]. simpl in *.
    apply andb_prop in Hnodot as [Hc Hs]. apply negb_true_iff in Hc. by rewrite Hc, IH. }
  assert (dropStart isDot name = name) as ->.
  { destruct name as [|c s]; [done |]. simpl in *.
    apply andb_prop in Hnodot as [Hc _]. apply negb_true_iff in Hc. by rewrite Hc. }
  assert (dropEnd isDot name = name) as ->.
  { clear Hname. induction name as [|c s IH]; [done |]. simpl in *.
    apply andb_prop in Hnodot as [Hc Hs]. apply negb_true_iff in Hc.
    rewrite IH by done. rewrite Hc. by destruct s. }
  assert (str_includes name "." = false) as ->; [| done].
  apply (allChars_excludes (λ c, negb (isDot c))); done.
Qed.

Lemma getDefaultPackage_simple_witness :
  getDefaultPackage "orders2" = "com.example." +:+ "orders2".
Proof. exact (getDefaultPackage_simple "orders2" eq_refl). Defined.
End DefaultPackage.

(** *** commaSeparatedList *)

Section CommaSeparated.

Lemma split_cons c value :
  split (String c value) =
  if (c =? ",")%char then EmptyString :: split value
  else match split value with
       | item :: items => String c item :: items
       | [] => [String c EmptyString]
       end.
Proof. reflexivity. Qed.

Lemma split_comma_free value : Forall (λ item, allChars notComma item = true) (split value).
Proof.
  induction value as [|c value IH]; [by repeat constructor |].
  rewrite split_cons. destruct (c =? ",")%char eqn:Hc; [by constructor |].
  destruct (split value) as [|item items]; simpl.
  - repeat constructor. simpl. unfold notComma. by rewrite Hc.
  - inversion IH; subst. constructor; [| done]. simpl. unfold notComma at 1. by rewrite Hc.
Qed.

(** An item without comma followed by a comma is split off. *)
Lemma split_item item rest :
  allChars notComma item = true →
  split (item +:+ "," +:+ rest) = item :: split rest.
Proof.
  induction item as [|c item IH]; [done |]. simpl allChars.
  intros [Hc Hitem]%andb_prop.
  change (String c item +:+ "," +:+ rest) with (String c (item +:+ "," +:+ rest)).
  rewrite split_cons.
  unfold notComma in Hc. apply negb_true_iff in Hc. rewrite Hc.
  by rewrite (IH Hitem).
Qed.

Lemma split_single item : allChars notComma item = true → split item = [item].
Proof.
  induction item as [|c item IH]; [done |]. simpl allChars.
  intros [Hc Hitem]%andb_prop. rewrite split_cons.
  unfold notComma in Hc. apply negb_true_iff in Hc. rewrite Hc.
  by rewrite (IH Hitem).
Qed.

Lemma split_concat items :
  items ≠ [] → Forall (λ item, allChars notComma item = true) items →
  split (String.concat "," items) = items.
Proof.
  intros Hne Hall. induction Hall as [| item items Hitem Hall IH]; [done |].
  destruct items as [|item' items'].
  - simpl. by apply split_single.
  - cbn [String.concat]. rewrite (split_item _ _ Hitem). f_equal. by apply IH.
Qed.

(** X15. Every name of the list made from a comma-separated value is not
    empty, has no comma and is trimmed. *)
Theorem commaSeparatedList_items (value item : string) :
  isAscii value = true →
  In item (commaSeparatedList value) →
  item ≠ EmptyString ∧ allChars notComma item = true ∧ trimString item = item.
Proof.
  intros _ Hin. unfold commaSeparatedList in Hin.
  apply filter_In in Hin as [Hin Hitem]. apply in_map_iff in Hin as (raw & <- & Hraw).
  split_and!.
  - intros Hnil. by rewrite Hnil in Hitem.
  - apply allChars_dropEnd, allChars_dropStart.
    by apply (proj1 (List.Forall_forall _ _) (split_comma_free value)).
  - apply trim_both_idemp.
Qed.

Lemma commaSeparatedList_items_witness :
  "c d" ≠ EmptyString ∧ allChars notComma "c d" = true ∧ trimString "c d" = "c d".
Proof.
  apply (commaSeparatedList_items " a , b,,  ,c d ," "c d" eq_refl).
  vm_compute. tauto.
Defined.

(** X16. Names that are not empty, have no comma and are trimmed, joined
    with commas, are read back as they were. *)
Theorem commaSeparatedList_round_trip (names : list string) :
  Forall (λ name, isAscii name = true ∧ name ≠ EmptyString
                  ∧ allChars notComma name = true ∧ trimString name = name) names →
  commaSeparatedList (String.concat "," names) = names.
Proof.
  intros Hall. unfold commaSeparatedList.
  destruct names as [|name names]; [done |].
  rewrite split_concat; [| done |].
  2:{ eapply Forall_impl; [done |]. by intros n (_ & _ & ? & _). }
  induction Hall as [| n ns (_ & Hne & _ & Htrim) _ IH]; [done |].
  cbn [List.map List.filter]. rewrite Htrim.
  destruct n; [done |]. cbn [truthy]. by rewrite IH.
Qed.

Lemma commaSeparatedList_round_trip_witness :
  commaSeparatedList (String.concat "," ["security-jwt"; "db postgres"; "x"])
  = ["security-jwt"; "db postgres"; "x"].
Proof.
  apply (commaSeparatedList_round_trip ["security-jwt"; "db postgres"; "x"]).
  repeat constructor; done.
Defined.
End CommaSeparated.

(** *** The action *)

(** X17. For an ASCII project name, the context the command prepares has a
    package name that is not empty, so the substitutions guarded by
    [context.packageName] are made; without the package option it is the
    default package of the project name, which has no [$]. *)
Theorem prepareContext_package (resolve : string → string) (templateName : string)
    (options : Options) :
  isAscii (name (prepareContext resolve templateName options)) = true →
  ∃ package,
    packageNameOf (prepareContext resolve templateName options) = Some package
    ∧ package ≠ EmptyString
    ∧ (optPackage options = None →
       package = getDefaultPackage (name (prepareContext resolve templateName options))
       ∧ str_includes package "$" = false).
Proof.
  assert (∀ n, getDefaultPackage n ≠ EmptyString
               ∧ str_includes (getDefaultPackage n) "$" = false) as Hdefault.
  { intros n. unfold getDefaultPackage.
    set (trimmed := dropEnd isDot (dropStart isDot
                      (collapseDots (mapChars sanitizeChar (toLowerCase n))))).
    assert (allChars isPackageChar trimmed = true) as Hchars.
    { by apply allChars_dropEnd, allChars_dropStart, allChars_collapseDots, sanitized_chars. }
    clearbody trimmed. destruct (str_includes trimmed ".") eqn:Hdot.
    - split; [by intros -> | by apply (allChars_excludes isPackageChar)].
    - split; [done |]. apply (allChars_excludes isPackageChar); [| done].
      by rewrite allChars_app, Hchars. }
  intros _. unfold packageNameOf, prepareContext. cbn [packageName name].
  set (n := orElse (optName options) templateName).
  destruct (Hdefault n) as [Hne Hplain].
  destruct (optPackage options) as [p |] eqn:Hp; cbn [orElse].
  - destruct p as [|c p']; cbn [truthy].
    + destruct (getDefaultPackage n) eqn:Hd; [done |]. cbn [truthy].
      eexists. split_and!; [done | done | done].
    + eexists. split_and!; [done | done | done].
  - destruct (getDefaultPackage n) eqn:Hd; [done |]. cbn [truthy].
    eexists. split_and!; [done | done |]. intros _. by split.
Qed.

(** The command run as [generate react --name "Orders API"]. *)
Definition ordersOptions : Options :=
  {| optName := Some "Orders API"; optOutput := None; optPackage := None;
     optWithPlugins := None; optOrg := None; optRepo := None; optBranch := None |}.

Lemma prepareContext_package_witness :
  ∃ package,
    packageNameOf (prepareContext (λ p, p) "react" ordersOptions) = Some package
    ∧ package = "orders.api".
Proof.
  destruct (prepareContext_package (λ p, p) "react" ordersOptions eq_refl)
    as (package & Hpkg & _ & Hdefault).
  exists package. split; [done |]. by destruct (Hdefault eq_refl) as [-> _].
Defined.

Section Apply.
Context (apply : Plugin → Context → completion string unit) (this : PluginRegistry)
        (context : Context).

Lemma applyEach_registered orderedPlugins :
  (∀ name, name ∈ orderedPlugins → is_Some (this !! name)) →
  ∃ r applied,
    applyEach apply this context orderedPlugins = (r, applied)
    ∧ match r with
      | Normal _ =>
          applied = orderedPlugins
          ∧ ∀ name plugin, name ∈ applied → this !! name = Some plugin →
                           apply plugin context = Normal tt
      | Throw msg =>
          ∃ done name plugin rest,
            orderedPlugins = done ++ name :: rest ∧ applied = done ++ [name]
            ∧ this !! name = Some plugin ∧ apply plugin context = Throw msg
      end.
Proof.
  induction orderedPlugins as [|name names IH]; intros Hreg.
  { exists (Normal tt), []. split; [done |]. split; [done |]. by intros ? ? ?%elem_of_nil. }
  destruct (Hreg name) as [plugin Hp]; [by left |].
  cbn [applyEach]. rewrite (getPlugin_Some _ _ _ Hp).
  destruct (apply plugin context) as [[] | msg] eqn:Happly.
  2:{ exists (Throw msg), [name]. split; [done |].
      by exists [], name, plugin, names. }
  destruct IH as (r & applied & Hrest & Hr); [intros n Hn; apply Hreg; by right |].
  rewrite Hrest. exists r, (name :: applied). split; [done |].
  destruct r as [[] | msg].
  - destruct Hr as [-> Hall]. split; [done |].
    intros n p [-> | Hn]%elem_of_cons Hnp; [congruence | by eapply Hall].
  - destruct Hr as (done & n & p & rest & -> & -> & Hnp & Hfail).
    by exists (name :: done), n, p, rest.
Qed.

(** X18. Applying the requested plugins never fails on the registry: the
    only error is the one thrown by the [apply] of a plugin.  When every
    [apply] succeeds, [apply] was called once for each name of the dependency
    order, in that order; when one throws, the calls stop with it. *)
Theorem applyPlugins_fails_only_in_apply :
  ∃ order r applied,
    getPluginsInDependencyOrder this (plugins context) = Some (Normal order)
    ∧ applyPlugins apply this context = Some (r, applied)
    ∧ match r with
      | Normal _ => applied = order
      | Throw msg =>
          ∃ done name plugin rest,
            order = done ++ name :: rest ∧ applied = done ++ [name]
            ∧ this !! name = Some plugin ∧ apply plugin context = Throw msg
      end.
Proof.
  destruct (order_run this (plugins context)) as [st Hrun].
  pose proof (order_unfold _ _ _ Hrun) as Horder.
  assert (∀ name, name ∈ result st → is_Some (this !! name)) as Hreg.
  { destruct (order_extends _ _ _ Hrun) as [(extra & Hres & Hreg) _].
    simpl in Hres. by rewrite Hres. }
  exists (result st). unfold applyPlugins. rewrite Horder.
  destruct (plugins context) as [|p ps] eqn:Hplugins.
  { assert (result st = []) as ->.
    { unfold getPluginsInDependencyOrder in Horder. simpl in Horder. congruence. }
    by exists (Normal tt), []. }
  destruct (applyEach_registered (result st) Hreg) as (r & applied & -> & Hr).
  exists r, applied. split_and!; [done | done |].
  destruct r as [[] | msg]; [by destruct Hr | done].
Qed.
End Apply.

Lemma applyPlugins_example :
  applyPlugins failsForB chainAB
    {| name := "x"; outputDir := "out"; packageName := None; templateName := "t";
       plugins := ["A"; "nope"] |}
  = Some (Throw "B failed", ["B"]).
Proof. reflexivity. Qed.

End GenerateFacts.

(** ** Plugin discovery *)

Module DiscoveryFacts.
Import Registry Processor Generate Discovery RegistryFacts.

Lemma foldl_filter_fmap {A B} (p : A → bool) (f : State → A → State) (h : A → B)
    (g : State → B → State) (l : list A) (st : State) :
  (∀ st x, g st (h x) = f st x) →
  foldl (λ st x, if p x then f st x else st) st l = foldl g st (h <$> List.filter p l).
Proof.
  intros Hg. revert st. induction l as [|x l IH]; intros st; simpl; [done |].
  destruct (p x); simpl; [by rewrite Hg |]; apply IH.
Qed.

(** Discovery tries its candidates one after the other. *)
Lemma discoverPlugins_fold env st :
  discoverPlugins env st = foldl step st (candidates env).
Proof.
  unfold discoverPlugins, candidates. rewrite !foldl_app.
  assert (∀ st, discoverBuiltInPlugins env st
                = foldl step st ((λ file, ("built-in", requireBuiltIn env, file))
                    <$> List.filter (λ file, endsWith file ".js")
                          (default [] (builtInFiles env)))) as ->.
  { intros st'. unfold discoverBuiltInPlugins. destruct (builtInFiles env); [| done].
    by apply (foldl_filter_fmap _ (λ st file, tryLoad "built-in" (requireBuiltIn env) file st)). }
  assert (∀ st, discoverLocalPlugins env st
                = foldl step st ((λ file, ("local", requireLocal env, file))
                    <$> List.filter (λ file, endsWith file ".js")
                          (default [] (localFiles env)))) as ->.
  { intros st'. unfold discoverLocalPlugins. destruct (localFiles env); [| done].
    by apply (foldl_filter_fmap _ (λ st file, tryLoad "local" (requireLocal env) file st)). }
  unfold discoverNpmPlugins. destruct (dependencies env); [| done].
  by apply (foldl_filter_fmap _ (λ st name, tryLoad "NPM" (requireNpm env) name st)).
Qed.

Section Steps.
Implicit Types (st : State) (c : string * (string → completion string Plugin) * string).

Lemma step_cases st c :
  (registry (step st c) = registry st
   ∧ length (warnings (step st c)) = S (length (warnings st))
   ∧ ∀ plugin, c.1.2 c.2 = Normal plugin → is_Some (registry st !! getName plugin))
  ∨ (∃ plugin, c.1.2 c.2 = Normal plugin ∧ registry st !! getName plugin = None
               ∧ registry (step st c) = <[getName plugin := plugin]> (registry st)
               ∧ warnings (step st c) = warnings st).
Proof.
  unfold step, tryLoad. destruct (c.1.2 c.2) as [plugin | msg].
  - unfold register. destruct (hasPlugin (registry st) (getName plugin)) eqn:Hhas; simpl.
    + left. split_and!; [done | rewrite length_app; simpl; lia |].
      intros p [= <-]. by apply hasPlugin_true.
    + right. exists plugin. apply hasPlugin_false in Hhas. done.
  - left. simpl. split_and!; [done | rewrite length_app; simpl; lia | done].
Qed.

Lemma step_warnings st c : ∃ more, warnings (step st c) = warnings st ++ more.
Proof.
  unfold step, tryLoad. destruct (c.1.2 c.2) as [plugin | msg]; [| by eexists].
  destruct (register plugin (registry st)) as [[[] | e] reg']; simpl; [| by eexists].
  exists []. by rewrite app_nil_r.
Qed.

Lemma step_populated st c : populated (registry st) → populated (registry (step st c)).
Proof.
  intros Hpop. unfold step, tryLoad. destruct (c.1.2 c.2) as [plugin | msg]; [| done].
  pose proof (populated_register plugin _ Hpop) as Hnext.
  destruct (register plugin (registry st)) as [[[] | e] reg'] eqn:Hreg; simpl in *; [done |].
  unfold register in Hreg. by destruct (hasPlugin _ _).
Qed.

(** What a pass over candidates keeps and counts. *)
Lemma pass_invariants cs st :
  registry st ⊆ registry (foldl step st cs)
  ∧ (populated (registry st) → populated (registry (foldl step st cs)))
  ∧ (∃ more, warnings (foldl step st cs) = warnings st ++ more)
  ∧ size (registry (foldl step st cs)) + length (warnings (foldl step st cs))
    = size (registry st) + length (warnings st) + length cs.
Proof.
  revert st. induction cs as [|c cs IH]; intros st; simpl.
  { split_and!; [done | done | by exists []; rewrite app_nil_r | lia]. }
  destruct (IH (step st c)) as (Hsub & Hpop & [more Hmore] & Hcount).
  destruct (step_warnings st c) as [more' Hmore'].
  split_and!.
  - etrans; [| done].
    destruct (step_cases st c) as [(-> & _) | (p & _ & Hnone & -> & _)]; [done |].
    by apply insert_subseteq.
  - intros H. by apply Hpop, step_populated.
  - exists (more' ++ more). by rewrite Hmore, Hmore', app_assoc.
  - rewrite Hcount.
    destruct (step_cases st c) as [(-> & -> & _) | (p & _ & Hnone & -> & ->)]; [lia |].
    rewrite map_size_insert_None by done. lia.
Qed.

(** The names a pass registers. *)
Lemma pass_names cs st name :
  is_Some (registry (foldl step st cs) !! name)
  ↔ is_Some (registry st !! name)
    ∨ ∃ c plugin, c ∈ cs ∧ c.1.2 c.2 = Normal plugin ∧ getName plugin = name.
Proof.
  revert st. induction cs as [|c cs IH]; intros st; simpl.
  { split; [by left |]. intros [? | (c & p & ?%elem_of_nil & _)]; done. }
  rewrite IH. split.
  - intros [Hin | (c' & p & Hc' & Hload & Hname)].
    + destruct (step_cases st c) as [(Hreg & _) | (p & Hload & _ & Hreg & _)];
        rewrite Hreg in Hin; [by left |].
      destruct (decide (getName p = name)) as [Heq | Hne].
      * right. exists c, p. split_and!; [by left | done | done].
      * left. by rewrite lookup_insert_ne in Hin.
    + right. exists c', p. split_and!; [by right | done | done].
  - intros [Hin | (c' & p & [-> | Hc']%elem_of_cons & Hload & Hname)].
    + left. destruct (step_cases st c) as [(-> & _) | (p & _ & _ & -> & _)]; [done |].
      destruct (decide (getName p = name)) as [<- |];
        [rewrite lookup_insert_eq; by eexists | by rewrite lookup_insert_ne].
    + left. destruct (step_cases st c) as [(-> & _ & Hdup) | (p' & Hload' & _ & -> & _)].
      * rewrite <- Hname. by apply Hdup.
      * assert (p' = p) as -> by congruence. rewrite <- Hname, lookup_insert_eq. by eexists.
    + right. by exists c', p.
Qed.

(** A pass over candidates whose plugins are all registered changes no
    registration. *)
Lemma pass_noop cs st :
  (∀ c plugin, c ∈ cs → c.1.2 c.2 = Normal plugin → is_Some (registry st !! getName plugin)) →
  registry (foldl step st cs) = registry st.
Proof.
  revert st. induction cs as [|c cs IH]; intros st Hall; simpl; [done |].
  assert (registry (step st c) = registry st) as Hsame.
  { destruct (step_cases st c) as [(-> & _) | (p & Hload & Hnone & _)]; [done |].
    destruct (Hall c p) as [? ?]; [by left | done | congruence]. }
  rewrite IH, Hsame; [done |].
  intros c' p Hc' Hload. rewrite Hsame. apply (Hall c' p); [by right | done].
Qed.
End Steps.

(** X19. Discovery never replaces or removes a registered plugin and keeps
    the registry well-formed; it only adds warnings; and each candidate gives
    either one new registration or one warning. *)
Theorem discovery_conserves (env : Environment) (st : State) :
  registry st ⊆ registry (discoverPlugins env st)
  ∧ (populated (registry st) → populated (registry (discoverPlugins env st)))
  ∧ (∃ more, warnings (discoverPlugins env st) = warnings st ++ more)
  ∧ size (registry (discoverPlugins env st)) + length (warnings (discoverPlugins env st))
    = size (registry st) + length (warnings st) + length (candidates env).
Proof. rewrite discoverPlugins_fold. apply pass_invariants. Qed.

(** X20. After discovery a name is registered exactly when it was
    registered before or is the name of a plugin that a candidate loads:
    files that do not end in [.js], dependencies without the prefix and
    candidates that fail to load register nothing. *)
Theorem discovery_names (env : Environment) (st : State) (name : string) :
  is_Some (registry (discoverPlugins env st) !! name)
  ↔ is_Some (registry st !! name)
    ∨ ∃ c plugin, c ∈ candidates env ∧ c.1.2 c.2 = Normal plugin ∧ getName plugin = name.
Proof. rewrite discoverPlugins_fold. apply pass_names. Qed.

(** X21. Running discovery again registers nothing new: the registry is
    the same, and every candidate gives a warning. *)
Theorem discovery_idempotent (env : Environment) (st : State) :
  registry (discoverPlugins env (discoverPlugins env st)) = registry (discoverPlugins env st)
  ∧ length (warnings (discoverPlugins env (discoverPlugins env st)))
    = length (warnings (discoverPlugins env st)) + length (candidates env).
Proof.
  assert (registry (discoverPlugins env (discoverPlugins env st))
          = registry (discoverPlugins env st)) as Hsame.
  { rewrite (discoverPlugins_fold env (discoverPlugins env st)). apply pass_noop.
    intros c p Hc Hload. rewrite discoverPlugins_fold. apply pass_names.
    right. by exists c, p. }
  split; [done |].
  pose proof (pass_invariants (candidates env) (discoverPlugins env st)) as (_ & _ & _ & Hcount).
  rewrite <- discoverPlugins_fold, Hsame in Hcount. lia.
Qed.

(** A discovery over one directory of built-in plugins and a package.json:
    [notes.txt] and [lodash] are no candidates, [b.js] fails to load, and
    the NPM package carries a plugin named like the built-in one. *)
Definition sampleEnvironment : Environment :=
  {| builtInFiles := Some ["a.js"; "notes.txt"; "b.js"];
     localFiles := None;
     dependencies := Some ["lodash"; "platform-cli-plugin-a"];
     pluginPrefix := None;
     requireBuiltIn := λ file,
       if String.eqb file "a.js" then Normal (mkPlugin "A" []) else Throw "Cannot find module";
     requireLocal := λ _, Throw "Cannot find module";
     requireNpm := λ _, Normal (mkPlugin "A" ["B"]) |}.

Example discovery_example :
  let st := discoverPlugins sampleEnvironment {| registry := ∅; warnings := [] |} in
  registry st = {[ "A" := mkPlugin "A" [] ]}
  ∧ warnings st =
      ["Failed to load built-in plugin b.js: Cannot find module";
       "Failed to load NPM plugin platform-cli-plugin-a: "
         +:+ message (AlreadyRegistered "A")]
  ∧ length (candidates sampleEnvironment) = 3.
Proof. by vm_compute. Qed.

End DiscoveryFacts.

(** ** Template sources *)

Module SourcesFacts.
Import Registry Processor Generate Sources.

Lemma prop_sourceOptions_spread (templateConfig : JsObject) (o : Options) :
  prop (spread templateConfig (sourceOptions o)) "org" = optOrg o
  ∧ prop (spread templateConfig (sourceOptions o)) "repo" = optRepo o
  ∧ prop (spread templateConfig (sourceOptions o)) "branch" = optBranch o
  ∧ prop (spread templateConfig (sourceOptions o)) "url" = prop templateConfig "url"
  ∧ prop (spread templateConfig (sourceOptions o)) "source" = prop templateConfig "source".
Proof.
  unfold prop, spread, sourceOptions.
  split_and!.
  - erewrite lookup_union_Some_l; [done |]. by rewrite lookup_insert_eq.
  - erewrite lookup_union_Some_l; [done |].
    rewrite lookup_insert_ne by done. by rewrite lookup_insert_eq.
  - erewrite lookup_union_Some_l; [done |].
    do 2 rewrite lookup_insert_ne by done. by rewrite lookup_insert_eq.
  - rewrite lookup_union_r; [done |]. by rewrite !lookup_insert_ne.
  - rewrite lookup_union_r; [done |]. by rewrite !lookup_insert_ne.
Qed.

(** X22. For the template source that the generate command builds: when
    the configured source type of the template is [git] (or none), the source
    is built; its branch is the [--branch] option or [main], whatever branch
    the configuration of the template names; and its URL is the configured
    [url] of the template when there is one, the [--org] and [--repo] options
    counting only without it. *)
Theorem generate_source (templates : option (gmap string JsObject))
    (templateName : string) (o : Options) :
  orElse (prop (default ∅ (default ∅ templates !! templateName)) "source") "git" = "git" →
  ∃ source,
    getTemplateSource templates templateName (sourceOptions o) = Normal source
    ∧ getBranch source = orElse (optBranch o) "main"
    ∧ getRepoUrl source =
        orElse (prop (default ∅ (default ∅ templates !! templateName)) "url")
               ("https://github.com/" +:+ orElse (optOrg o) "rcdelacruz" +:+ "/"
                +:+ orElse (optRepo o) ("platform-template-" +:+ templateName) +:+ ".git").
Proof.
  intros Hgit. unfold getTemplateSource.
  destruct (prop_sourceOptions_spread (default ∅ (default ∅ templates !! templateName)) o)
    as (Horg & Hrepo & Hbranch & Hurl & Hsource).
  rewrite Hsource, Hgit. rewrite bool_decide_eq_true_2 by done.
  eexists. split; [done |]. unfold getBranch, getRepoUrl. cbn [config sourceTemplateName].
  by rewrite Horg, Hrepo, Hbranch, Hurl.
Qed.

(** A template configured with a URL and a branch, generated with [--org]. *)
Definition configured : option (gmap string JsObject) :=
  Some {[ "java-spring" :=
            ({[ "source" := Some "git";
                "url" := Some "https://github.com/yourcompany/platform-template-java-spring.git";
                "branch" := Some "develop" ]} : JsObject) ]}.

Definition withOrg : Options :=
  {| optName := None; optOutput := None; optPackage := None; optWithPlugins := None;
     optOrg := Some "acme"; optRepo := None; optBranch := None |}.

Lemma generate_source_witness :
  orElse (prop (default ∅ (default ∅ configured !! "java-spring")) "source") "git" = "git"
  ∧ ∃ source,
      getTemplateSource configured "java-spring" (sourceOptions withOrg) = Normal source
      ∧ getBranch source = "main"
      ∧ getRepoUrl source
        = "https://github.com/yourcompany/platform-template-java-spring.git".
Proof.
  split; [by vm_compute |].
  destruct (generate_source configured "java-spring" withOrg) as (source & Hs & Hb & Hu);
    [by vm_compute |].
  exists source. split_and!; [done | by rewrite Hb | rewrite Hu; by vm_compute].
Defined.

(** X23. [listTemplates] keeps the configured templates first and in
    order, lists exactly the configured and the local templates, and lists
    none twice when the configured ones are distinct. *)
Theorem listTemplates_union (keys : list string) (local : option (list string)) :
  keys `prefix_of` listTemplates keys local
  ∧ (∀ template, template ∈ listTemplates keys local
                 ↔ template ∈ keys ∨ template ∈ default [] local)
  ∧ (NoDup keys → NoDup (listTemplates keys local)).
Proof.
  unfold listTemplates. destruct local as [localTemplates |]; simpl.
  2: { split_and!; [done | | done]. intros t. rewrite elem_of_nil. naive_solver. }
  revert keys. induction localTemplates as [|t ts IH]; intros keys; cbn [foldl].
  { split_and!; [done | | done]. intros t. rewrite elem_of_nil. naive_solver. }
  destruct (includes keys t) eqn:Hin;
    [apply bool_decide_eq_true in Hin | apply bool_decide_eq_false in Hin].
  - destruct (IH keys) as (Hpre & Hmem & Hnodup). split_and!; [done | | done].
    intros t'. rewrite Hmem, elem_of_cons. naive_solver.
  - destruct (IH (keys ++ [t])) as (Hpre & Hmem & Hnodup). split_and!.
    + etrans; [| done]. by apply prefix_app_r.
    + intros t'. rewrite Hmem, elem_of_app, list_elem_of_singleton, elem_of_cons.
      naive_solver.
    + intros Hk. apply Hnodup. apply NoDup_app. split_and!; [done | | apply NoDup_singleton].
      intros x Hx ->%list_elem_of_singleton. done.
Qed.

End SourcesFacts.

(** ** The Java Spring plugin *)

Module JavaSpringFacts.
Import Processor JavaSpring.

Lemma char_prefix c a s :
  String.prefix (String c EmptyString) (String a s) = Ascii.eqb a c.
Proof.
  simpl. destruct (ascii_dec c a) as [-> | Hne].
  - rewrite Ascii.eqb_refl. by destruct s.
  - symmetry. apply Ascii.eqb_neq. congruence.
Qed.

Lemma includes_char c a s :
  str_includes (String a s) (String c EmptyString)
  = Ascii.eqb a c || str_includes s (String c EmptyString).
Proof.
  change (str_includes (String a s) (String c EmptyString))
    with (if String.prefix (String c EmptyString) (String a s) then true
          else str_includes s (String c EmptyString)).
  by rewrite char_prefix.
Qed.

Lemma includes_char_app c pre post :
  str_includes (pre +:+ String c post) (String c EmptyString) = true.
Proof.
  induction pre as [|a pre IH];
    [change (EmptyString +:+ String c post) with (String c post)
    |change (String a pre +:+ String c post) with (String a (pre +:+ String c post))];
    rewrite includes_char.
  - by rewrite Ascii.eqb_refl.
  - rewrite IH. by destruct (Ascii.eqb a c).
Qed.

(** The last occurrence splits the string. *)
Lemma lastIndexOfFrom_spec c s i found :
  (str_includes s (String c EmptyString) = false ∧ lastIndexOfFrom c i found s = found)
  ∨ (∃ pre post, s = pre +:+ String c post
                 ∧ str_includes post (String c EmptyString) = false
                 ∧ lastIndexOfFrom c i found s = (i + Z.of_nat (String.length pre))%Z).
Proof.
  revert i found. induction s as [|a s IH]; intros i found; [by left |].
  cbn [lastIndexOfFrom]. rewrite includes_char.
  destruct (IH (i + 1)%Z (if Ascii.eqb a c then i else found))
    as [[Hno ->] | (pre & post & -> & Hpost & ->)].
  - destruct (Ascii.eqb a c) eqn:Hac.
    + right. apply Ascii.eqb_eq in Hac as ->. exists EmptyString, s.
      split_and!; [done | done | simpl; lia].
    + left. by rewrite Hno.
  - right. exists (String a pre), post. split_and!; [done | done |].
    cbn [String.length]. lia.
Qed.

Lemma substring_prefix pre post :
  String.substring 0 (String.length pre) (pre +:+ post) = pre.
Proof.
  induction pre as [|a pre IH]; simpl; [by destruct post | by rewrite IH].
Qed.

Lemma length_append (a b : string) :
  String.length (a +:+ b) = String.length a + String.length b.
Proof. induction a as [|c a IH]; simpl; [done | by rewrite IH]. Qed.

(** X24. The group id sent to Spring Initializr is the package name up to
    its last dot, so that the package name is the group id, a dot and a last
    segment without dots; for a package name without a dot the group id is
    empty. *)
Theorem groupId_splits (packageName : string) :
  (str_includes packageName "." = false → groupId packageName = EmptyString)
  ∧ (str_includes packageName "." = true →
     ∃ last, packageName = groupId packageName +:+ "." +:+ last
             ∧ str_includes last "." = false).
Proof.
  unfold groupId, lastIndexOf.
  destruct (lastIndexOfFrom_spec "." packageName 0 (-1))
    as [[Hno ->] | (pre & post & -> & Hpost & ->)].
  - split; [| congruence]. intros _. unfold substring.
    replace (Z.min (Z.max (-1) 0) _) with 0%Z by lia.
    replace (Z.min (Z.max 0 0) _) with 0%Z by lia.
    simpl. by destruct packageName.
  - split; [by rewrite includes_char_app |]. intros _. exists post.
    split; [| done]. f_equal. unfold substring. rewrite length_append.
    cbn [String.length].
    replace (Z.min (Z.max 0 0) _) with 0%Z by lia.
    replace (Z.min (Z.max (0 + Z.of_nat (String.length pre)) 0) _)
      with (Z.of_nat (String.length pre)) by lia.
    replace (Z.min 0 _) with 0%Z by lia.
    replace (Z.max 0 _) with (Z.of_nat (String.length pre)) by lia.
    rewrite Z.sub_0_r, Nat2Z.id. change (Z.to_nat 0) with 0.
    symmetry. apply substring_prefix.
Qed.

Example groupId_examples :
  groupId "com.example.demo" = "com.example"
  ∧ groupId "demo" = EmptyString
  ∧ groupId (Generate.getDefaultPackage "shop") = "com.example"
  ∧ groupId (Generate.getDefaultPackage "My App") = "my".
Proof. by vm_compute. Qed.

End JavaSpringFacts.
